(** * whisper_streaming: the LocalAgreement hypothesis buffer and the online
      processor of [whisper_online_ts.py]

    A shallow embedding of the classes [HypothesisBuffer] and
    [OnlineASRProcessor] and the properties of their methods.

    Conventions of the embedding:
    - a timestamped word is the Python tuple [(beg, end, text)];
    - seconds are exact rationals ([Q]); the rounding of Python floats is
      outside the model, every comparison of the source is kept as written;
    - a [str] is a [string], its characters being code points below 256;
    - a Python list is a [list]; an index that Python would reject raises
      [IndexError] in the model as well;
    - a method of the processor is a computation in the monad [M], which
      threads the object's state and keeps it when an exception is raised. *)

From Stdlib Require Import List String Ascii ZArith QArith Qabs Lia Lqa Bool Arith.
Import ListNotations.

Local Open Scope string_scope.
Local Open Scope list_scope.
Local Open Scope nat_scope.

(** ** Python primitives *)

(** [l[i]] for a possibly negative index; [None] stands for [IndexError]. *)
Definition py_index {A : Type} (l : list A) (i : Z) : option A :=
  let n := Z.of_nat (List.length l) in
  if ((0 <=? i) && (i <? n))%Z then nth_error l (Z.to_nat i)
  else if ((- n <=? i) && (i <? 0))%Z then nth_error l (Z.to_nat (n + i))
  else None.

(** [l[k:]] for a possibly negative [k]. *)
Definition py_slice_from {A : Type} (k : Z) (l : list A) : list A :=
  let n := Z.of_nat (List.length l) in
  if (0 <=? k)%Z then skipn (Z.to_nat k) l
  else skipn (Z.to_nat (Z.max 0 (n + k))) l.

(** [int(x)] on a float: truncation towards zero. *)
Definition py_int (x : Q) : Z := Z.quot (Qnum x) (Zpos (Qden x)).

Definition Qltb (x y : Q) : bool :=
  match Qcompare x y with Lt => true | _ => false end.
Definition Qgtb (x y : Q) : bool := Qltb y x.
Definition Qleb (x y : Q) : bool := Qle_bool x y.

(** [sep.join(l)]. *)
Definition py_join (sep : string) (l : list string) : string :=
  String.concat sep l.

(** [str.isspace] on one character, for the code points below 256. *)
Definition py_isspace (c : ascii) : bool :=
  let n := nat_of_ascii c in
  ((9 <=? n) && (n <=? 13)) || ((28 <=? n) && (n <=? 32))
  || (n =? 133) || (n =? 160).

Fixpoint py_lstrip (s : string) : string :=
  match s with
  | EmptyString => EmptyString
  | String c s' => if py_isspace c then py_lstrip s' else s
  end.

Fixpoint py_rstrip (s : string) : string :=
  match s with
  | EmptyString => EmptyString
  | String c s' =>
      match py_rstrip s' with
      | EmptyString => if py_isspace c then EmptyString else String c EmptyString
      | r => String c r
      end
  end.

(** [s.strip()]. *)
Definition py_strip (s : string) : string := py_rstrip (py_lstrip s).

(** [s.startswith(w)]. *)
Definition py_startswith (s w : string) : bool := String.prefix w s.

(** [s[n:]] for [n >= 0]. *)
Fixpoint py_str_from (n : nat) (s : string) : string :=
  match n, s with
  | O, _ => s
  | S n', String _ s' => py_str_from n' s'
  | S _, EmptyString => EmptyString
  end.

(** ** Timestamped words *)

Definition tsword : Type := Q * Q * string.

Definition w_beg (w : tsword) : Q := fst (fst w).
Definition w_end (w : tsword) : Q := snd (fst w).
Definition w_text (w : tsword) : string := snd w.

Definition texts (l : list tsword) : list string := map w_text l.

(** ** class HypothesisBuffer *)

Record HypothesisBuffer : Type := mkHypothesisBuffer {
  commited_in_buffer : list tsword;
  buffer : list tsword;
  new : list tsword;
  last_commited_time : Q;
  last_commited_word : option string
}.

(** [HypothesisBuffer.__init__]. *)
Definition HypothesisBuffer_init : HypothesisBuffer :=
  {| commited_in_buffer := [];
     buffer := [];
     new := [];
     last_commited_time := 0;
     last_commited_word := None |}.

(** The [while self.new] loop of [flush]: the loop variables are [self.new],
    [self.buffer], [commit], [self.last_commited_word] and
    [self.last_commited_time]. *)
Fixpoint flush_loop (nw buf commit : list tsword) (lcw : option string) (lct : Q)
  : list tsword * list tsword * list tsword * option string * Q :=
  match nw with
  | [] => (nw, buf, commit, lcw, lct)
  | (na, nb, nt) :: nw' =>
      match buf with
      | [] => (nw, buf, commit, lcw, lct)
      | b0 :: buf' =>
          if String.eqb nt (w_text b0)
          then flush_loop nw' buf' (commit ++ [(na, nb, nt)]) (Some nt) nb
          else (nw, buf, commit, lcw, lct)
      end
  end.

(** [HypothesisBuffer.flush]: the new state and the returned [commit]. *)
Definition flush (hb : HypothesisBuffer) : HypothesisBuffer * list tsword :=
  let '(nw, _, commit, lcw, lct) :=
    flush_loop (new hb) (buffer hb) [] (last_commited_word hb)
               (last_commited_time hb) in
  ({| commited_in_buffer := commited_in_buffer hb ++ commit;
      buffer := nw;
      new := [];
      last_commited_time := lct;
      last_commited_word := lcw |},
   commit).

(** ** Exceptions and the state monad of a method call *)

Inductive exn : Type :=
| IndexError
| TranscriberError (msg : string).

Inductive outcome (A : Type) : Type :=
| Ok (a : A)
| Raise (e : exn).
Arguments Ok {A} a.
Arguments Raise {A} e.

(** A method of an object of state [S]: it returns the state it leaves
    behind together with its value or the exception it raised. *)
Definition M (S A : Type) : Type := S -> S * outcome A.

Definition ret {S A : Type} (a : A) : M S A := fun s => (s, Ok a).

Definition bind {S A B : Type} (c : M S A) (k : A -> M S B) : M S B :=
  fun s =>
    match c s with
    | (s', Ok a) => k a s'
    | (s', Raise e) => (s', Raise e)
    end.

Definition raise {S A : Type} (e : exn) : M S A := fun s => (s, Raise e).
Definition get {S : Type} : M S S := fun s => (s, Ok s).
Definition modify {S : Type} (f : S -> S) : M S unit := fun s => (f s, Ok tt).

(** The value of an indexing expression, or [IndexError]. *)
Definition index_or_raise {S A : Type} (o : option A) : M S A :=
  match o with
  | Some a => ret a
  | None => raise IndexError
  end.

(** The value of an outside call, or the exception it raised. *)
Definition call {S A : Type} (r : outcome A) : M S A := fun s => (s, r).

Declare Scope method_scope.
Delimit Scope method_scope with method.
Notation "x <- c ;; k" := (bind c (fun x => k))
  (at level 61, c at next level, right associativity) : method_scope.
Notation "c ;; k" := (bind c (fun _ => k))
  (at level 61, right associativity) : method_scope.
Local Open Scope method_scope.

(** ** HypothesisBuffer.insert *)

Definition set_new (nw : list tsword) (hb : HypothesisBuffer) : HypothesisBuffer :=
  {| commited_in_buffer := commited_in_buffer hb;
     buffer := buffer hb;
     new := nw;
     last_commited_time := last_commited_time hb;
     last_commited_word := last_commited_word hb |}.

(** The comprehension [[l[j][2] for j in idx]]. *)
Fixpoint index_texts (l : list tsword) (idx : list Z) : option (list string) :=
  match idx with
  | [] => Some []
  | j :: idx' =>
      match py_index l j, index_texts l idx' with
      | Some w, Some r => Some (w_text w :: r)
      | _, _ => None
      end
  end.

(** [range(1, i + 1)]. *)
Definition range1 (i : nat) : list nat := seq 1 i.

(** [for j in range(i): self.new.pop(0)]. *)
Fixpoint pop_new (i : nat) : M HypothesisBuffer unit :=
  match i with
  | O => ret tt
  | S i' =>
      hb <- get ;;
      match new hb with
      | [] => raise IndexError
      | _ :: nw' => modify (set_new nw') ;; pop_new i'
      end
  end.

(** The loop [for i in range(1, min(min(cn, nn), 5) + 1)] with its [break],
    over the values of [i] still to come. *)
Fixpoint dedup_for (rng : list nat) : M HypothesisBuffer unit :=
  match rng with
  | [] => ret tt
  | i :: rest =>
      hb <- get ;;
      cs <- index_or_raise
              (index_texts (commited_in_buffer hb)
                 (map (fun j => (- Z.of_nat j)%Z) (range1 i))) ;;
      tl <- index_or_raise
              (index_texts (new hb)
                 (map (fun j => (Z.of_nat j - 1)%Z) (range1 i))) ;;
      let c := py_join " " (rev cs) in
      let tail := py_join " " tl in
      if String.eqb c tail then pop_new i else dedup_for rest
  end.

(** The words of [new] shifted by [offset]. *)
Definition shift_words (offset : Q) (nw : list tsword) : list tsword :=
  map (fun '(a, b, t) => ((a + offset)%Q, (b + offset)%Q, t)) nw.

(** The shifted words that start after [last_commited_time - 0.1]. *)
Definition keep_after (lct : Q) (nw : list tsword) : list tsword :=
  filter (fun '(a, b, t) => Qgtb a (lct - 0.1)%Q) nw.

Definition insert (nw : list tsword) (offset : Q) : M HypothesisBuffer unit :=
  let nw := shift_words offset nw in
  hb <- get ;;
  modify (set_new (keep_after (last_commited_time hb) nw)) ;;
  hb <- get ;;
  match new hb with
  | [] => ret tt
  | (a, b, t) :: _ =>
      if Qltb (Qabs (a - last_commited_time hb)) 1 then
        match commited_in_buffer hb with
        | [] => ret tt
        | _ :: _ =>
            let cn := List.length (commited_in_buffer hb) in
            let nn := List.length (new hb) in
            dedup_for (range1 (Nat.min (Nat.min cn nn) 5))
        end
      else ret tt
  end.

(** The loop of [pop_commited]. *)
Fixpoint pop_commited_loop (time : Q) (cib : list tsword) : list tsword :=
  match cib with
  | [] => []
  | w :: cib' => if Qleb (w_end w) time then pop_commited_loop time cib' else cib
  end.

Definition pop_commited (time : Q) (hb : HypothesisBuffer) : HypothesisBuffer :=
  {| commited_in_buffer := pop_commited_loop time (commited_in_buffer hb);
     buffer := buffer hb;
     new := new hb;
     last_commited_time := last_commited_time hb;
     last_commited_word := last_commited_word hb |}.

Definition complete (hb : HypothesisBuffer) : list tsword := buffer hb.

(** ** The transcriber and the sentence tokenizer *)

(** A word and a segment as the transcriber returns them. *)
Record Word : Type := mkWord {
  start : Q;
  end_ : Q;
  word : string
}.

Record Segment : Type := mkSegment {
  words : list Word;
  seg_end : Q
}.

Definition sample : Type := Q.

(** [asr.transcribe(audio, init_prompt=...)] returns the list of segments or
    raises. *)
Record ASRBase : Type := mkASR {
  transcribe : list sample -> string -> outcome (list Segment)
}.

(** [tokenizer.split(text)]. *)
Record Tokenizer : Type := mkTokenizer {
  split : string -> list string
}.

(** ** class OnlineASRProcessor *)

Record OnlineASRProcessor : Type := mkOnlineASRProcessor {
  asr : ASRBase;
  tokenizer : Tokenizer;
  audio_buffer : list sample;
  buffer_time_offset : Q;
  transcript_buffer : HypothesisBuffer;
  commited : list tsword;
  last_chunked_at : Q;
  silence_iters : Z
}.

Definition SAMPLING_RATE : Z := 16000.

(** [OnlineASRProcessor.__init__], which calls [init]. *)
Definition init (a : ASRBase) (tk : Tokenizer) : OnlineASRProcessor :=
  {| asr := a;
     tokenizer := tk;
     audio_buffer := [];
     buffer_time_offset := 0;
     transcript_buffer := HypothesisBuffer_init;
     commited := [];
     last_chunked_at := 0;
     silence_iters := 0 |}.

Definition set_audio_buffer (a : list sample) (st : OnlineASRProcessor) :=
  {| asr := asr st; tokenizer := tokenizer st;
     audio_buffer := a;
     buffer_time_offset := buffer_time_offset st;
     transcript_buffer := transcript_buffer st;
     commited := commited st;
     last_chunked_at := last_chunked_at st;
     silence_iters := silence_iters st |}.

Definition set_buffer_time_offset (t : Q) (st : OnlineASRProcessor) :=
  {| asr := asr st; tokenizer := tokenizer st;
     audio_buffer := audio_buffer st;
     buffer_time_offset := t;
     transcript_buffer := transcript_buffer st;
     commited := commited st;
     last_chunked_at := last_chunked_at st;
     silence_iters := silence_iters st |}.

Definition set_transcript_buffer (hb : HypothesisBuffer) (st : OnlineASRProcessor) :=
  {| asr := asr st; tokenizer := tokenizer st;
     audio_buffer := audio_buffer st;
     buffer_time_offset := buffer_time_offset st;
     transcript_buffer := hb;
     commited := commited st;
     last_chunked_at := last_chunked_at st;
     silence_iters := silence_iters st |}.

Definition set_commited (c : list tsword) (st : OnlineASRProcessor) :=
  {| asr := asr st; tokenizer := tokenizer st;
     audio_buffer := audio_buffer st;
     buffer_time_offset := buffer_time_offset st;
     transcript_buffer := transcript_buffer st;
     commited := c;
     last_chunked_at := last_chunked_at st;
     silence_iters := silence_iters st |}.

Definition set_last_chunked_at (t : Q) (st : OnlineASRProcessor) :=
  {| asr := asr st; tokenizer := tokenizer st;
     audio_buffer := audio_buffer st;
     buffer_time_offset := buffer_time_offset st;
     transcript_buffer := transcript_buffer st;
     commited := commited st;
     last_chunked_at := t;
     silence_iters := silence_iters st |}.

(** A method of [self.transcript_buffer] run from a method of the processor. *)
Definition on_transcript_buffer {A : Type} (c : M HypothesisBuffer A)
  : M OnlineASRProcessor A :=
  fun st =>
    let '(hb, r) := c (transcript_buffer st) in
    (set_transcript_buffer hb st, r).

Definition insert_audio_chunk (audio : list sample) : M OnlineASRProcessor unit :=
  modify (fun st => set_audio_buffer (audio_buffer st ++ audio) st).

(** The first loop of [prompt]:
    [while k > 0 and self.commited[k-1][1] > self.last_chunked_at: k -= 1]. *)
Fixpoint prompt_k (cm : list tsword) (lca : Q) (k : nat) : option nat :=
  match k with
  | O => Some O
  | S k' =>
      match py_index cm (Z.of_nat k - 1) with
      | None => None
      | Some w => if Qgtb (w_end w) lca then prompt_k cm lca k' else Some k
      end
  end.

(** The second loop of [prompt]: [while p and l < 200], where [p.pop(-1)]
    takes the last element of [p].  Every round shortens [p], so [fuel]
    rounds are enough when [fuel] is the length of [p]. *)
Fixpoint prompt_loop (fuel : nat) (p : list string) (l : nat)
    (prompt : list string) : list string :=
  match fuel with
  | O => prompt
  | S fuel' =>
      match p with
      | [] => prompt
      | _ :: _ =>
          if l <? 200 then
            let x := last p "" in
            prompt_loop fuel' (removelast p) (l + (String.length x + 1))
                        (prompt ++ [x])
          else prompt
      end
  end.

(** [OnlineASRProcessor.prompt]: the pair [(prompt, context)]. *)
Definition prompt : M OnlineASRProcessor (string * string) :=
  st <- get ;;
  k <- index_or_raise
         (prompt_k (commited st) (last_chunked_at st)
                   (Nat.max 0 (List.length (commited st) - 1))) ;;
  let p := texts (firstn k (commited st)) in
  let pr := prompt_loop (List.length p) p 0 [] in
  let non_prompt := skipn k (commited st) in
  ret (py_join "" (rev pr), py_join "" (texts non_prompt)).

(** [ts_words]. *)
Definition ts_words (segments : list Segment) : list tsword :=
  flat_map (fun s => map (fun w => (start w, end_ w, word w)) (words s)) segments.

(** [segments_end_ts]. *)
Definition segments_end_ts (res : list Segment) : list Q := map seg_end res.

(** [to_flush(sents, sep, offset)]; [sep=None] is read as the empty string. *)
Definition to_flush (sents : list tsword) (sep : option string) (offset : Q)
  : option Q * option Q * string :=
  let sep := match sep with None => "" | Some s => s end in
  let t := py_join sep (texts sents) in
  match sents with
  | [] => (None, None, t)
  | s0 :: _ => (Some (offset + w_beg s0)%Q,
                Some (offset + w_end (last sents s0))%Q, t)
  end.

(** A sentence of [words_to_sentences]: [(beg, end, text)], where [beg] is
    still [None] when no word set it. *)
Definition sentence : Type := option Q * Q * string.

Definition is_None {A : Type} (o : option A) : bool :=
  match o with None => true | Some _ => false end.

(** The inner loop [while cwords] of [words_to_sentences].  It returns the
    words left in [cwords] and the sentence appended to [out], if any.  The
    variable [end] is [None] in every round, as it is set only before
    [break]. *)
Fixpoint sentence_loop (cwords : list tsword) (beg : option Q)
    (sent fsent : string) : list tsword * option sentence :=
  match cwords with
  | [] => ([], None)
  | (b, e, w) :: cwords' =>
      if is_None beg && py_startswith sent w then
        sentence_loop cwords' (Some b)
                      (py_strip (py_str_from (String.length w) sent)) fsent
      else if String.eqb sent w then
        (cwords', Some (beg, e, fsent))
      else
        sentence_loop cwords' beg
                      (py_strip (py_str_from (String.length w) sent)) fsent
  end.

(** The outer loop [while s] of [words_to_sentences]. *)
Fixpoint sentences_loop (s : list string) (cwords : list tsword)
    (out : list sentence) : list sentence :=
  match s with
  | [] => out
  | s0 :: s' =>
      let sent := py_strip s0 in
      let '(cwords', r) := sentence_loop cwords None sent sent in
      sentences_loop s' cwords'
                     (match r with Some x => out ++ [x] | None => out end)
  end.

Definition words_to_sentences (tk : Tokenizer) (ws : list tsword) : list sentence :=
  let cwords := ws in
  let t := py_join " " (texts cwords) in
  let s := split tk t in
  sentences_loop s cwords [].

(** [OnlineASRProcessor.chunk_at]. *)
Definition chunk_at (time : Q) : M OnlineASRProcessor unit :=
  modify (fun st =>
            set_transcript_buffer (pop_commited time (transcript_buffer st)) st) ;;
  st <- get ;;
  let cut_seconds := (time - buffer_time_offset st)%Q in
  modify (fun st =>
            set_audio_buffer
              (py_slice_from (py_int cut_seconds * SAMPLING_RATE)%Z
                             (audio_buffer st)) st) ;;
  modify (set_buffer_time_offset time) ;;
  modify (set_last_chunked_at time).

(** [while len(sents) > 2: sents.pop(0)]. *)
Fixpoint keep_last_two {A : Type} (sents : list A) : list A :=
  match sents with
  | [] => []
  | _ :: sents' => if 2 <? List.length sents then keep_last_two sents' else sents
  end.

Definition chunk_completed_sentence : M OnlineASRProcessor unit :=
  st <- get ;;
  match commited st with
  | [] => ret tt
  | _ :: _ =>
      let sents := words_to_sentences (tokenizer st) (commited st) in
      if List.length sents <? 2 then ret tt
      else
        let sents := keep_last_two sents in
        s <- index_or_raise (py_index sents (-2)) ;;
        chunk_at (snd (fst s))
  end.

(** The loop [while len(ends) > 2 and e > t] of [chunk_completed_segment];
    [off] is [self.buffer_time_offset].  Every round shortens [ends]. *)
Fixpoint segment_loop (fuel : nat) (off t : Q) (ends : list Q) (e : Q)
  : option (list Q * Q) :=
  match fuel with
  | O => Some (ends, e)
  | S fuel' =>
      if (2 <? List.length ends) && Qgtb e t then
        let ends' := removelast ends in
        match py_index ends' (-2) with
        | None => None
        | Some x => segment_loop fuel' off t ends' (x + off)%Q
        end
      else Some (ends, e)
  end.

Definition chunk_completed_segment (res : list Segment) : M OnlineASRProcessor unit :=
  st <- get ;;
  match commited st with
  | [] => ret tt
  | _ :: _ =>
      let ends := segments_end_ts res in
      w <- index_or_raise (py_index (commited st) (-1)) ;;
      let t := w_end w in
      if 1 <? List.length ends then
        x <- index_or_raise (py_index ends (-2)) ;;
        let e := (x + buffer_time_offset st)%Q in
        r <- index_or_raise
               (segment_loop (List.length ends) (buffer_time_offset st) t ends e) ;;
        let e := snd r in
        if Qleb e t then chunk_at e else ret tt
      else ret tt
  end.

(** [len(self.audio_buffer) / self.SAMPLING_RATE]. *)
Definition audio_seconds (st : OnlineASRProcessor) : Q :=
  (inject_Z (Z.of_nat (List.length (audio_buffer st))) / inject_Z SAMPLING_RATE)%Q.

(** [OnlineASRProcessor.process_iter]. *)
Definition process_iter : M OnlineASRProcessor (option Q * option Q * string) :=
  pc <- prompt ;;
  st <- get ;;
  res <- call (transcribe (asr st) (audio_buffer st) (fst pc)) ;;
  let tsw := ts_words res in
  on_transcript_buffer (insert tsw (buffer_time_offset st)) ;;
  o <- on_transcript_buffer (fun hb => let '(hb', c) := flush hb in (hb', Ok c)) ;;
  modify (fun st => set_commited (commited st ++ o) st) ;;
  match o with
  | [] => ret tt
  | _ :: _ => chunk_completed_sentence
  end ;;
  st <- get ;;
  (if Qgtb (audio_seconds st) 30 then chunk_completed_segment res else ret tt) ;;
  ret (to_flush o None 0).

(** [OnlineASRProcessor.finish]. *)
Definition finish : M OnlineASRProcessor (option Q * option Q * string) :=
  st <- get ;;
  let o := complete (transcript_buffer st) in
  let f := to_flush o None 0 in
  ret f.

(** ** Notions used to state the properties *)

(** [p] is a prefix of [l]. *)
Definition prefix_of {A : Type} (p l : list A) : Prop := exists r, l = p ++ r.

(** The length of the longest common prefix of two lists of texts, compared
    word by word. *)
Fixpoint common_prefix_len (l1 l2 : list string) : nat :=
  match l1, l2 with
  | x :: l1', y :: l2' =>
      if String.eqb x y then S (common_prefix_len l1' l2') else O
  | _, _ => O
  end.

(** The last [i] elements of [l]. *)
Definition lastn {A : Type} (i : nat) (l : list A) : list A :=
  skipn (List.length l - i) l.

(** The last [i] committed texts and the first [i] new texts, joined by
    single spaces, are the same string. *)
Definition overlap_at (cib nw : list tsword) (i : nat) : Prop :=
  py_join " " (texts (lastn i cib)) = py_join " " (texts (firstn i nw)).

(** One iteration on the hypothesis buffer: [insert] followed by [flush]. *)
Definition insert_then_flush (ws : list tsword) (offset : Q)
    (hb : HypothesisBuffer) : HypothesisBuffer :=
  fst (flush (fst (insert ws offset hb))).

(** A tokenizer that returns its input as one sentence. *)
Definition one_sentence_tokenizer : Tokenizer := mkTokenizer (fun t => [t]).

(** The comparison [c == tail] of [insert] for an overlap of [i] words. *)
Definition overlapb (cib nw : list tsword) (i : nat) : bool :=
  String.eqb (py_join " " (texts (lastn i cib))) (py_join " " (texts (firstn i nw))).

(** The first [i] of [rng] with an overlap of [i] words, and 0 when there is
    none. *)
Definition first_overlap (cib nw : list tsword) (rng : list nat) : nat :=
  match find (overlapb cib nw) rng with
  | Some i => i
  | None => O
  end.


(** The candidates of [chunk_completed_segment]: every segment end but the
    last one, shifted by the offset [off], from the second-to-last one
    backwards. *)
Definition segment_candidates (off : Q) (ends : list Q) : list Q :=
  map (fun x => (x + off)%Q) (rev (removelast ends)).

(** The first candidate that is at or before [t]. *)
Definition segment_cut (off t : Q) (ends : list Q) : option Q :=
  find (fun e => Qleb e t) (segment_candidates off ends).

(** The value of [e] after the loop that starts at candidate [c] with the
    candidates [cs] still to come. *)
Fixpoint segment_walk (off t : Q) (c : Q) (cs : list Q) : Q :=
  match cs with
  | [] => (c + off)%Q
  | c' :: cs' => if Qgtb (c + off) t then segment_walk off t c' cs' else (c + off)%Q
  end.

(** The words that the second loop of [prompt] takes from [p], given [p]
    from its last element backwards. *)
Fixpoint prompt_taken (rp : list string) (l : nat) : list string :=
  match rp with
  | [] => []
  | x :: rp' =>
      if l <? 200 then x :: prompt_taken rp' (l + (String.length x + 1)) else []
  end.

(** The number of characters of a list of texts. *)
Definition total_length (xs : list string) : nat :=
  list_sum (map String.length xs).



(** ** Concrete runs *)

(** A buffer whose last commits are "alpha" and "beta", the second ending at
    3.0 s, and a transcription that repeats them before a new word. *)
Definition hb_alpha_beta : HypothesisBuffer :=
  {| commited_in_buffer := [(1, 2, "alpha"); (2, 3, "beta")]%Q;
     buffer := [];
     new := [];
     last_commited_time := 3;
     last_commited_word := Some "beta" |}.

Definition words_alpha_beta_gamma : list tsword :=
  [(2.95, 3.1, "alpha"); (3.1, 3.3, "beta"); (3.3, 3.6, "gamma")]%Q.

(** Three transcriptions of a growing audio buffer, the offset being 0: the
    third one places the word "c" slightly earlier than the second did. *)
Definition words_iter1 : list tsword := [(0, 3, "a")]%Q.
Definition words_iter2 : list tsword := [(0, 3, "a"); (3, 3.5, "c")]%Q.

(** A transcriber that hears nothing and a transcriber that always fails. *)
Definition silent_asr : ASRBase := mkASR (fun _ _ => Ok []).
Definition failing_asr : ASRBase :=
  mkASR (fun _ _ => Raise (TranscriberError "transcription failed")).

(** A processor whose committed log is [cm], all of it scrolled away at
    [lca]. *)
Definition scrolled_processor (a : ASRBase) (tk : Tokenizer)
    (cm : list tsword) (lca : Q) : OnlineASRProcessor :=
  {| asr := a;
     tokenizer := tk;
     audio_buffer := [];
     buffer_time_offset := lca;
     transcript_buffer := HypothesisBuffer_init;
     commited := cm;
     last_chunked_at := lca;
     silence_iters := 0 |}.

(** Eleven one-second words of 21 characters each, the first at 0 s. *)
Definition long_words : list tsword :=
  map (fun i => (inject_Z (Z.of_nat i), inject_Z (Z.of_nat (S i)),
                 " internationalization"))
      (seq 0 11).

Definition hello_world : list tsword := [(0, 1, "Hello"); (1, 2, " world")]%Q.

Definition two_words : list tsword := [(0, 1, "hello"); (1, 2, "world")]%Q.


(** Three segments that end at 10.0, 20.5 and 29.0 s, and a processor at
    offset 0 whose last committed word ends at 12.0 s. *)
Definition three_segments : list Segment :=
  [mkSegment [] 10; mkSegment [] 20.5; mkSegment [] 29]%Q.

Definition processor_commited_to_12 : OnlineASRProcessor :=
  {| asr := silent_asr;
     tokenizer := one_sentence_tokenizer;
     audio_buffer := [];
     buffer_time_offset := 0;
     transcript_buffer := HypothesisBuffer_init;
     commited := [(11, 12, "twelve")]%Q;
     last_chunked_at := 0;
     silence_iters := 0 |}.

(** A tokenizer that ends a sentence after a full stop followed by a
    space. *)
Fixpoint split_after_period (s acc : string) : list string :=
  match s with
  | EmptyString => match acc with EmptyString => [] | _ => [acc] end
  | String c rest =>
      match rest with
      | String " " rest' =>
          if Ascii.eqb c "." then (acc ++ ".")%string :: split_after_period rest' ""
          else split_after_period rest (acc ++ String c "")%string
      | _ => split_after_period rest (acc ++ String c "")%string
      end
  end.

Definition period_tokenizer : Tokenizer :=
  mkTokenizer (fun t => split_after_period t "").

(** [n] seconds of silence. *)
Definition seconds_of_audio (n : Z) : list sample :=
  repeat 0%Q (Z.to_nat (n * SAMPLING_RATE)).

(** A session of three iterations.  The transcriber returns "Hi there. How
    is" on the first 31 s of audio and "Hi there. How are you" on 32 s; after
    the buffer is scrolled (the prompt is then not empty) it returns "are
    you" on what is left, with times local to the buffer. *)
Definition transcript_31s : list Segment :=
  [mkSegment [mkWord 0 1 "Hi"; mkWord 1 2 "there."] 2;
   mkSegment [mkWord 20 21 "How"] 21;
   mkSegment [mkWord 29 30 "is"] 30]%Q.

Definition transcript_32s : list Segment :=
  [mkSegment [mkWord 0 1 "Hi"; mkWord 1 2 "there."] 2;
   mkSegment [mkWord 20 21 "How"] 21;
   mkSegment [mkWord 29 30 "are"; mkWord 30 31 "you"] 31]%Q.

Definition transcript_scrolled : list Segment :=
  [mkSegment [mkWord 8 9 "are"; mkWord 9 10 "you"] 10]%Q.

Definition scripted_asr : ASRBase :=
  mkASR (fun audio prompt =>
    if String.eqb prompt "" then
      if (Z.of_nat (List.length audio) <=? 31 * SAMPLING_RATE)%Z
      then Ok transcript_31s else Ok transcript_32s
    else Ok transcript_scrolled).

(** One round of the driver: [insert_audio_chunk], then [process_iter]. *)
Definition feed (audio : list sample) : M OnlineASRProcessor (option Q * option Q * string) :=
  insert_audio_chunk audio ;; process_iter.

Definition session_after_32s : OnlineASRProcessor :=
  fst (feed (seconds_of_audio 1)
         (fst (feed (seconds_of_audio 31) (init scripted_asr period_tokenizer)))).

Definition session_after_33s : OnlineASRProcessor :=
  fst (feed (seconds_of_audio 1) session_after_32s).

(** A session of two iterations: "hello world" is heard in 2 s of audio and
    "hello world today" in 3 s. *)
Definition hello_asr : ASRBase :=
  mkASR (fun audio _ =>
    if (Z.of_nat (List.length audio) <=? 2 * SAMPLING_RATE)%Z
    then Ok [mkSegment [mkWord 0 0.4 "hello"; mkWord 0.5 0.9 " world"] 0.9]%Q
    else Ok [mkSegment [mkWord 0 0.4 "hello"; mkWord 0.5 0.9 " world";
                        mkWord 1.1 1.4 " today"] 1.4]%Q).

(** ** Notions for the remaining methods *)

(** [s] is a suffix of [l]. *)
Definition suffix_of {A : Type} (s l : list A) : Prop := exists p, l = p ++ s.

(** Whenever [commited_in_buffer] is not empty, [last_commited_time] and
    [last_commited_word] are the end and the text of its last word. *)
Definition last_commit_recorded (hb : HypothesisBuffer) : Prop :=
  forall w ws, commited_in_buffer hb = w :: ws ->
    last_commited_time hb = w_end (last ws w)
    /\ last_commited_word hb = Some (w_text (last ws w)).

(** The state of the processor between the extension of [commited] and the
    scrolling of the audio buffer in [process_iter], with the words [o]
    committed by the iteration. *)
Definition commit_step (res : list Segment) (st : OnlineASRProcessor)
  : OnlineASRProcessor * list tsword :=
  let tb1 := fst (insert (ts_words res) (buffer_time_offset st)
                         (transcript_buffer st)) in
  let tb2 := fst (flush tb1) in
  let o := snd (flush tb1) in
  (set_commited (commited st ++ o) (set_transcript_buffer tb2 st), o).

(** The scrolling part of [process_iter], after [o] has been committed. *)
Definition scroll_step (res : list Segment) (o : list tsword)
  : M OnlineASRProcessor unit :=
  match o with
  | [] => ret tt
  | _ :: _ => chunk_completed_sentence
  end ;;
  st <- get ;;
  if Qgtb (audio_seconds st) 30 then chunk_completed_segment res else ret tt.

(** [st'] is [st] after some calls of [chunk_at]. *)
Inductive scrolled (st : OnlineASRProcessor) : OnlineASRProcessor -> Prop :=
| scrolled_none : scrolled st st
| scrolled_more (time : Q) (st' : OnlineASRProcessor) :
    scrolled st st' -> scrolled st (fst (chunk_at time st')).

(** What every state of a session satisfies: the offset is the time of the
    last scroll, [commited_in_buffer] is the end of [commited], [new] is
    empty between two calls, and the hypothesis buffer records its last
    commit. *)
Definition session_invariant (st : OnlineASRProcessor) : Prop :=
  buffer_time_offset st = last_chunked_at st
  /\ suffix_of (commited_in_buffer (transcript_buffer st)) (commited st)
  /\ new (transcript_buffer st) = []
  /\ last_commit_recorded (transcript_buffer st).

(** The prompt that [process_iter] passes to the transcriber. *)
Definition prompt_text (st : OnlineASRProcessor) : string :=
  match snd (prompt st) with
  | Ok pc => fst pc
  | Raise _ => ""
  end.

(** ** load_audio_chunk *)

(** A bound [i] of a slice of a sequence of length [n], as Python reads it. *)
Definition py_clamp (n i : Z) : Z :=
  if (i <? 0)%Z then Z.max 0 (n + i) else Z.min i n.

(** [l[b:e]]. *)
Definition py_slice {A : Type} (b e : Z) (l : list A) : list A :=
  let n := Z.of_nat (List.length l) in
  let b' := py_clamp n b in
  let e' := py_clamp n e in
  firstn (Z.to_nat (e' - b')) (skipn (Z.to_nat b') l).

(** [load_audio_chunk(fname, beg, end)], where [audio] is what
    [load_audio(fname)] returns. *)
Definition load_audio_chunk (audio : list sample) (beg end_ : Q) : list sample :=
  let beg_s := py_int (beg * 16000) in
  let end_s := py_int (end_ * 16000) in
  py_slice beg_s end_s audio.

(** * Properties *)

(** ** Lists and strings *)

Lemma last_cons_default {A : Type} (x : A) (l : list A) (d : A) :
  last (x :: l) d = last l x.
Proof.
  revert x d. induction l as [|y l IH]; intros x d; [reflexivity|].
  change (last (x :: y :: l) d) with (last (y :: l) d).
  now rewrite !IH.
Qed.

Lemma prefix_of_nil {A : Type} (l : list A) : prefix_of [] l.
Proof. exists l. reflexivity. Qed.

Lemma prefix_of_cons {A : Type} (x : A) (p l : list A) :
  prefix_of p l -> prefix_of (x :: p) (x :: l).
Proof. intros [r ->]. exists r. reflexivity. Qed.

Lemma prefix_of_cons_inv {A : Type} (x y : A) (p l : list A) :
  prefix_of (x :: p) (y :: l) -> x = y /\ prefix_of p l.
Proof.
  intros [r H]. simpl in H. injection H as -> ->. split; [reflexivity|].
  exists r. reflexivity.
Qed.

Lemma common_prefix_len_firstn (l1 l2 : list string) :
  firstn (common_prefix_len l1 l2) l1 = firstn (common_prefix_len l1 l2) l2.
Proof.
  revert l2. induction l1 as [|x l1 IH]; intros [|y l2]; simpl; try reflexivity.
  destruct (String.eqb_spec x y) as [->|_]; simpl; [|reflexivity].
  now rewrite IH.
Qed.

Lemma common_prefix_len_max (l1 l2 p : list string) :
  prefix_of p l1 -> prefix_of p l2 ->
  prefix_of p (firstn (common_prefix_len l1 l2) l1).
Proof.
  revert l1 l2. induction p as [|a p IH]; intros l1 l2 H1 H2.
  - apply prefix_of_nil.
  - destruct l1 as [|x l1]; [destruct H1 as [r H1]; discriminate|].
    destruct l2 as [|y l2]; [destruct H2 as [r H2]; discriminate|].
    apply prefix_of_cons_inv in H1 as [<- H1].
    apply prefix_of_cons_inv in H2 as [<- H2].
    simpl. rewrite String.eqb_refl. simpl.
    apply prefix_of_cons. now apply IH.
Qed.

Lemma prefix_of_firstn {A : Type} (n : nat) (l : list A) : prefix_of (firstn n l) l.
Proof. exists (skipn n l). symmetry. apply firstn_skipn. Qed.

(** ** Strings: [strip], [startswith] and slices *)

Lemma length_append (a b : string) :
  String.length (a ++ b)%string = String.length a + String.length b.
Proof. induction a as [|c a IH]; simpl; [reflexivity | now rewrite IH]. Qed.









Lemma join_cons2 (sep a b : string) (l : list string) :
  py_join sep (a :: b :: l) = (a ++ sep ++ py_join sep (b :: l))%string.
Proof. reflexivity. Qed.



(** ** HypothesisBuffer.flush *)

Lemma flush_loop_spec (nw buf commit : list tsword) (lcw : option string) (lct : Q) :
  let n := common_prefix_len (texts nw) (texts buf) in
  flush_loop nw buf commit lcw lct =
  (skipn n nw, skipn n buf, commit ++ firstn n nw,
   last (map (fun w => Some (w_text w)) (firstn n nw)) lcw,
   last (map w_end (firstn n nw)) lct).
Proof.
  revert buf commit lcw lct.
  induction nw as [|[[na nb] nt] nw IH]; intros buf commit lcw lct.
  - simpl. now rewrite app_nil_r.
  - destruct buf as [|b0 buf]; [simpl; now rewrite app_nil_r|].
    cbn [flush_loop texts map common_prefix_len].
    change (w_text (na, nb, nt)) with nt.
    destruct (String.eqb nt (w_text b0)) eqn:E.
    + rewrite IH. cbn zeta. cbn [skipn firstn map].
      rewrite !last_cons_default. rewrite <- app_assoc. reflexivity.
    + cbn. now rewrite app_nil_r.
Qed.

Lemma flush_unfold (hb : HypothesisBuffer) :
  let n := common_prefix_len (texts (new hb)) (texts (buffer hb)) in
  let commit := firstn n (new hb) in
  flush hb =
  ({| commited_in_buffer := commited_in_buffer hb ++ commit;
      buffer := skipn n (new hb);
      new := [];
      last_commited_time := last (map w_end commit) (last_commited_time hb);
      last_commited_word :=
        last (map (fun w => Some (w_text w)) commit) (last_commited_word hb) |},
   commit).
Proof. unfold flush. rewrite flush_loop_spec. reflexivity. Qed.

(** C1. [flush] returns the longest common prefix, word by word and by text,
    of [new] and [buffer]: the returned words are the first [n] words of
    [new], their texts are a prefix of the texts of [buffer], and every
    common prefix of the two lists of texts is a prefix of them.  The
    returned words are appended to [commited_in_buffer]; the end and the
    text of the last returned word become [last_commited_time] and
    [last_commited_word] (both stay as they were when nothing is returned);
    [buffer] becomes the rest of [new] and [new] becomes empty.  With an
    empty [new] or an empty [buffer] nothing is returned. *)
Theorem flush_commits_longest_common_prefix (hb : HypothesisBuffer) :
  let hb' := fst (flush hb) in
  let commit := snd (flush hb) in
  let n := common_prefix_len (texts (new hb)) (texts (buffer hb)) in
  commit = firstn n (new hb)
  /\ prefix_of (texts commit) (texts (new hb))
  /\ prefix_of (texts commit) (texts (buffer hb))
  /\ (forall p, prefix_of p (texts (new hb)) ->
                prefix_of p (texts (buffer hb)) ->
                prefix_of p (texts commit))
  /\ commited_in_buffer hb' = commited_in_buffer hb ++ commit
  /\ last_commited_time hb' = last (map w_end commit) (last_commited_time hb)
  /\ last_commited_word hb' =
       last (map (fun w => Some (w_text w)) commit) (last_commited_word hb)
  /\ buffer hb' = skipn n (new hb)
  /\ new hb = commit ++ buffer hb'
  /\ new hb' = []
  /\ (new hb = [] \/ buffer hb = [] -> commit = []).
Proof.
  cbv zeta. rewrite flush_unfold. cbn [fst snd buffer new commited_in_buffer
    last_commited_time last_commited_word].
  set (n := common_prefix_len _ _).
  assert (Ht : texts (firstn n (new hb)) = firstn n (texts (new hb))).
  { unfold texts. symmetry. apply firstn_map. }
  repeat split.
  - rewrite Ht. apply prefix_of_firstn.
  - rewrite Ht. unfold n. rewrite common_prefix_len_firstn. apply prefix_of_firstn.
  - intros p H1 H2. rewrite Ht. now apply common_prefix_len_max.
  - symmetry. apply firstn_skipn.
  - intros [H|H]; subst n; rewrite H; [reflexivity|].
    destruct (texts (new hb)); reflexivity.
Qed.

(** ** Comparisons of seconds *)

Lemma Qltb_lt (x y : Q) : Qltb x y = true <-> (x < y)%Q.
Proof.
  unfold Qltb. rewrite Qlt_alt. destruct (x ?= y)%Q; split; congruence.
Qed.

Lemma Qgtb_lt (x y : Q) : Qgtb x y = true <-> (y < x)%Q.
Proof. unfold Qgtb. apply Qltb_lt. Qed.

Lemma Qgtb_le (x y : Q) : Qgtb x y = false <-> (x <= y)%Q.
Proof.
  unfold Qgtb, Qltb. rewrite Qle_alt, <- Qgt_alt, Qlt_alt.
  destruct (y ?= x)%Q; split; congruence.
Qed.

Lemma Qleb_le (x y : Q) : Qleb x y = true <-> (x <= y)%Q.
Proof. apply Qle_bool_iff. Qed.

(** ** Indexing *)

Lemma py_index_nonneg {A : Type} (l : list A) (j : nat) :
  j < List.length l -> py_index l (Z.of_nat (S j) - 1) = nth_error l j.
Proof.
  intros H. unfold py_index.
  replace (Z.of_nat (S j) - 1)%Z with (Z.of_nat j) by lia.
  destruct (Z.leb_spec 0 (Z.of_nat j)); [|lia].
  destruct (Z.ltb_spec (Z.of_nat j) (Z.of_nat (List.length l))); [|lia].
  simpl. now rewrite Nat2Z.id.
Qed.

Lemma py_index_neg {A : Type} (l : list A) (j : nat) :
  j < List.length l -> py_index l (- Z.of_nat (S j)) = nth_error (rev l) j.
Proof.
  intros H. unfold py_index.
  destruct (Z.leb_spec 0 (- Z.of_nat (S j))); [lia|].
  destruct (Z.leb_spec (- Z.of_nat (List.length l)) (- Z.of_nat (S j))); [|lia].
  destruct (Z.ltb_spec (- Z.of_nat (S j)) 0); [|lia].
  simpl. rewrite nth_error_rev.
  destruct (Nat.ltb_spec j (List.length l)); [|lia].
  f_equal. lia.
Qed.

Lemma skipn_nth_error_cons {A : Type} (l : list A) (a : nat) (x : A) :
  nth_error l a = Some x -> skipn a l = x :: skipn (S a) l.
Proof.
  revert a. induction l as [|y l IH]; intros [|a] H; try discriminate.
  - injection H as ->. reflexivity.
  - simpl in H. apply IH in H. exact H.
Qed.

Lemma index_texts_seq (l m : list tsword) (g : nat -> Z) (k a : nat) :
  (forall j, j < List.length m -> py_index l (g (S j)) = nth_error m j) ->
  a + k <= List.length m ->
  index_texts l (map g (seq (S a) k)) = Some (texts (firstn k (skipn a m))).
Proof.
  intros Hg. revert a. induction k as [|k IH]; intros a Hk; [reflexivity|].
  cbn [seq map index_texts]. rewrite Hg by lia.
  destruct (nth_error m a) as [x|] eqn:E.
  2:{ apply nth_error_None in E. lia. }
  rewrite IH by lia. rewrite (skipn_nth_error_cons _ _ _ E). reflexivity.
Qed.

Lemma index_texts_new (nw : list tsword) (i : nat) :
  i <= List.length nw ->
  index_texts nw (map (fun j => (Z.of_nat j - 1)%Z) (range1 i))
  = Some (texts (firstn i nw)).
Proof.
  intros H. unfold range1.
  rewrite (index_texts_seq nw nw (fun j => (Z.of_nat j - 1)%Z) i 0); auto.
  intros j Hj. now apply py_index_nonneg.
Qed.

Lemma index_texts_commited (cib : list tsword) (i : nat) :
  i <= List.length cib ->
  option_map (@rev string)
    (index_texts cib (map (fun j => (- Z.of_nat j)%Z) (range1 i)))
  = Some (texts (lastn i cib)).
Proof.
  intros H. unfold range1.
  rewrite (index_texts_seq cib (rev cib) (fun j => (- Z.of_nat j)%Z) i 0).
  - cbn [option_map skipn]. f_equal. unfold texts, lastn.
    rewrite <- map_rev, firstn_rev, rev_involutive. reflexivity.
  - intros j Hj. rewrite length_rev in Hj. now apply py_index_neg.
  - rewrite length_rev. lia.
Qed.

(** ** HypothesisBuffer.insert *)

Lemma set_new_same (hb : HypothesisBuffer) : set_new (new hb) hb = hb.
Proof. destruct hb; reflexivity. Qed.

Lemma pop_new_spec (i : nat) (hb : HypothesisBuffer) :
  i <= List.length (new hb) ->
  pop_new i hb = (set_new (skipn i (new hb)) hb, Ok tt).
Proof.
  revert hb. induction i as [|i IH]; intros hb H.
  - cbn. now rewrite set_new_same.
  - cbn [pop_new]. unfold bind at 1, get.
    destruct (new hb) as [|w nw] eqn:E; [simpl in H; lia|].
    unfold bind, modify. rewrite IH by (simpl in *; lia). reflexivity.
Qed.

Lemma dedup_for_spec (rng : list nat) (hb : HypothesisBuffer) :
  Forall (fun i => i <= List.length (commited_in_buffer hb)
                   /\ i <= List.length (new hb)) rng ->
  dedup_for rng hb =
  (set_new (skipn (first_overlap (commited_in_buffer hb) (new hb) rng) (new hb)) hb,
   Ok tt).
Proof.
  induction rng as [|i rng IH]; intros H.
  - cbn. now rewrite set_new_same.
  - inversion H as [|? ? [Hc Hn] Hr]; subst.
    cbn [dedup_for]. unfold bind at 1, get.
    pose proof (index_texts_commited _ _ Hc) as E1.
    destruct (index_texts (commited_in_buffer hb) _) as [cs|]; [|discriminate].
    injection E1 as E1.
    unfold bind at 1. cbn [index_or_raise ret].
    rewrite (index_texts_new _ _ Hn).
    unfold bind at 1. cbn [index_or_raise ret].
    rewrite E1. unfold first_overlap. cbn [find].
    unfold overlapb at 1.
    destruct (String.eqb _ _).
    + now apply pop_new_spec.
    + now apply IH.
Qed.

Lemma find_seq_first (f : nat -> bool) (a k : nat) :
  match find f (seq a k) with
  | Some i => a <= i < a + k /\ f i = true /\ forall j, a <= j < i -> f j = false
  | None => forall j, a <= j < a + k -> f j = false
  end.
Proof.
  revert a. induction k as [|k IH]; intros a; cbn [seq find].
  - intros j Hj. lia.
  - destruct (f a) eqn:E.
    + split; [lia|]. split; [exact E|]. intros j Hj. lia.
    + specialize (IH (S a)). destruct (find f (seq (S a) k)) as [i|].
      * destruct IH as (Hi & Hf & Hm). split; [lia|]. split; [exact Hf|].
        intros j Hj. destruct (Nat.eq_dec j a) as [->|]; auto. apply Hm. lia.
      * intros j Hj. destruct (Nat.eq_dec j a) as [->|]; auto. apply IH. lia.
Qed.

Lemma first_overlap_bound (cib nw : list tsword) (k n : nat) :
  first_overlap cib nw (range1 (Nat.min k n)) <= n.
Proof.
  unfold first_overlap, range1.
  pose proof (find_seq_first (overlapb cib nw) 1 (Nat.min k n)) as Hf.
  destruct (find _ _) as [i|]; lia.
Qed.

Lemma overlapb_true (cib nw : list tsword) (i : nat) :
  overlapb cib nw i = true <-> overlap_at cib nw i.
Proof. unfold overlapb, overlap_at. apply String.eqb_eq. Qed.

Lemma overlapb_false (cib nw : list tsword) (i : nat) :
  overlapb cib nw i = false <-> ~ overlap_at cib nw i.
Proof. unfold overlapb, overlap_at. apply String.eqb_neq. Qed.

Lemma insert_near (hb : HypothesisBuffer) (new_words : list tsword) (offset : Q) :
  let cib := commited_in_buffer hb in
  let surv := keep_after (last_commited_time hb) (shift_words offset new_words) in
  let m := Nat.min (Nat.min (List.length cib) (List.length surv)) 5 in
  cib <> [] ->
  (forall w rest, surv = w :: rest ->
                  (Qabs (w_beg w - last_commited_time hb) < 1)%Q) ->
  insert new_words offset hb =
  (set_new (skipn (first_overlap cib surv (range1 m)) surv) hb, Ok tt).
Proof.
  cbv zeta. intros Hcib Hnear.
  unfold insert. unfold bind at 1, get. unfold bind at 1, modify.
  unfold bind at 1, get. cbn [new set_new last_commited_time commited_in_buffer].
  remember (keep_after (last_commited_time hb) (shift_words offset new_words))
    as surv eqn:Es.
  destruct surv as [|[[a b] t] rest].
  - rewrite Nat.min_0_r. reflexivity.
  - specialize (Hnear _ _ eq_refl). unfold w_beg in Hnear. cbn [fst] in Hnear.
    apply Qltb_lt in Hnear. rewrite Hnear.
    destruct (commited_in_buffer hb) as [|c0 cib'] eqn:Ec; [congruence|].
    rewrite dedup_for_spec.
    + cbn [new set_new commited_in_buffer]. rewrite Ec. reflexivity.
    + cbn [new set_new commited_in_buffer]. rewrite Ec. unfold range1.
      apply Forall_forall. intros i Hi. apply in_seq in Hi. lia.
Qed.

(** C2. With a non-empty [commited_in_buffer], let the survivors be the
    words shifted by [offset] whose start is strictly greater than
    [last_commited_time - 0.1].  When the first survivor starts less than one
    second away from [last_commited_time], [insert] leaves in [new] the
    survivors without their first [i] words, where [i] is the smallest number
    in 1..min(|commited_in_buffer|, |survivors|, 5) such that the last [i]
    committed texts and the first [i] surviving texts, joined by single
    spaces, are equal, and [i = 0] when there is no such number.  So at most
    5 words are dropped; nothing else of the buffer changes and no exception
    is raised. *)
Theorem insert_drops_smallest_overlap
    (hb : HypothesisBuffer) (new_words : list tsword) (offset : Q) :
  let cib := commited_in_buffer hb in
  let surv := keep_after (last_commited_time hb) (shift_words offset new_words) in
  let m := Nat.min (Nat.min (List.length cib) (List.length surv)) 5 in
  cib <> [] ->
  (forall w rest, surv = w :: rest ->
                  (Qabs (w_beg w - last_commited_time hb) < 1)%Q) ->
  exists i,
    insert new_words offset hb = (set_new (skipn i surv) hb, Ok tt)
    /\ i <= 5
    /\ ((1 <= i <= m /\ overlap_at cib surv i
         /\ forall j, 1 <= j < i -> ~ overlap_at cib surv j)
        \/ (i = 0 /\ forall j, 1 <= j <= m -> ~ overlap_at cib surv j)).
Proof.
  intros cib surv m Hcib Hnear.
  exists (first_overlap cib surv (range1 m)).
  split; [now apply insert_near|].
  unfold first_overlap, range1.
  pose proof (find_seq_first (overlapb cib surv) 1 m) as Hf.
  assert (Hm5 : m <= 5) by apply Nat.le_min_r.
  destruct (find (overlapb cib surv) (seq 1 m)) as [i|].
  - destruct Hf as (Hi & Ht & Hm).
    split; [lia|]. left.
    split; [lia|]. split; [now apply overlapb_true|].
    intros j Hj. apply overlapb_false. apply Hm. lia.
  - split; [lia|]. right.
    split; [reflexivity|]. intros j Hj. apply overlapb_false. apply Hf. lia.
Qed.

Lemma insert_drops_smallest_overlap_witness :
  exists i,
    insert words_alpha_beta_gamma 0 hb_alpha_beta =
    (set_new (skipn i (keep_after 3 (shift_words 0 words_alpha_beta_gamma)))
             hb_alpha_beta, Ok tt)
    /\ i <= 5
    /\ ((1 <= i <= 2
         /\ overlap_at (commited_in_buffer hb_alpha_beta)
                       (keep_after 3 (shift_words 0 words_alpha_beta_gamma)) i
         /\ forall j, 1 <= j < i ->
              ~ overlap_at (commited_in_buffer hb_alpha_beta)
                           (keep_after 3 (shift_words 0 words_alpha_beta_gamma)) j)
        \/ (i = 0
            /\ forall j, 1 <= j <= 2 ->
                 ~ overlap_at (commited_in_buffer hb_alpha_beta)
                              (keep_after 3 (shift_words 0 words_alpha_beta_gamma)) j)).
Proof.
  apply (insert_drops_smallest_overlap hb_alpha_beta words_alpha_beta_gamma 0).
  - discriminate.
  - intros w rest H. vm_compute in H. injection H as <- _. vm_compute. reflexivity.
Defined.

(** The two leading words of the repeated 2-gram are dropped. *)
Example insert_alpha_beta_gamma :
  new (fst (insert words_alpha_beta_gamma 0 hb_alpha_beta))
  = [((3.3 + 0)%Q, (3.6 + 0)%Q, "gamma")].
Proof. reflexivity. Qed.

(** In every state [insert] raises nothing and leaves in [new] the survivors
    without at most 5 leading words. *)
Lemma insert_result (hb : HypothesisBuffer) (new_words : list tsword) (offset : Q) :
  let surv := keep_after (last_commited_time hb) (shift_words offset new_words) in
  exists d, d <= 5
    /\ insert new_words offset hb = (set_new (skipn d surv) hb, Ok tt).
Proof.
  intros surv.
  destruct (commited_in_buffer hb) as [|c0 cib'] eqn:Ec.
  - exists 0. split; [lia|]. unfold insert.
    unfold bind at 1, get. unfold bind at 1, modify. unfold bind at 1, get.
    cbn [new set_new last_commited_time commited_in_buffer]. fold surv.
    rewrite Ec. destruct surv as [|[[a b] t] rest]; [reflexivity|].
    destruct (Qltb _ _); reflexivity.
  - destruct surv as [|[[a b] t] rest] eqn:Es.
    + exists 0. split; [lia|]. unfold insert.
      unfold bind at 1, get. unfold bind at 1, modify. unfold bind at 1, get.
      cbn [new set_new last_commited_time commited_in_buffer]. fold surv.
      rewrite Es. reflexivity.
    + destruct (Qltb (Qabs (a - last_commited_time hb)) 1) eqn:En.
      * eexists. split; [|rewrite <- Es; apply insert_near].
        -- apply first_overlap_bound.
        -- rewrite Ec. discriminate.
        -- fold surv. rewrite Es. intros w r [= <- _]. now apply Qltb_lt.
      * exists 0. split; [lia|]. unfold insert.
        unfold bind at 1, get. unfold bind at 1, modify. unfold bind at 1, get.
        cbn [new set_new last_commited_time commited_in_buffer]. fold surv.
        rewrite Es, En. reflexivity.
Qed.

(** ** The last committed time over iterations *)

Lemma keep_after_In (lct : Q) (ws : list tsword) (w : tsword) :
  In w (keep_after lct ws) -> In w ws /\ (lct - 0.1 < w_beg w)%Q.
Proof.
  unfold keep_after. rewrite filter_In. destruct w as [[a b] t].
  intros [H1 H2]. split; [exact H1|]. now apply Qgtb_lt in H2.
Qed.



Lemma In_firstn {A : Type} (n : nat) (l : list A) (x : A) :
  In x (firstn n l) -> In x l.
Proof.
  intros H. rewrite <- (firstn_skipn n l). apply in_or_app. now left.
Qed.

Lemma In_skipn {A : Type} (n : nat) (l : list A) (x : A) :
  In x (skipn n l) -> In x l.
Proof.
  intros H. rewrite <- (firstn_skipn n l). apply in_or_app. now right.
Qed.




(** ** OnlineASRProcessor.prompt *)

Lemma prompt_k_total (cm : list tsword) (lca : Q) (k : nat) :
  k <= List.length cm -> exists k', k' <= k /\ prompt_k cm lca k = Some k'.
Proof.
  induction k as [|k IH]; intros H.
  - exists 0. split; [lia | reflexivity].
  - cbn [prompt_k]. rewrite py_index_nonneg by lia.
    destruct (nth_error cm k) as [w|] eqn:E.
    2:{ apply nth_error_None in E. lia. }
    destruct (Qgtb (w_end w) lca).
    + destruct IH as (k' & Hk & ->); [lia|]. exists k'. split; [lia | reflexivity].
    + exists (S k). split; [lia | reflexivity].
Qed.

(** [prompt] raises nothing and leaves the processor as it was; the split
    index never reaches the length of a non-empty [commited]. *)
Lemma prompt_total (st : OnlineASRProcessor) :
  exists k,
    k <= List.length (commited st) - 1
    /\ prompt_k (commited st) (last_chunked_at st)
                (Nat.max 0 (List.length (commited st) - 1)) = Some k
    /\ prompt st =
       (st, Ok (py_join "" (rev (prompt_loop (List.length (texts (firstn k (commited st))))
                                             (texts (firstn k (commited st))) 0 [])),
                py_join "" (texts (skipn k (commited st))))).
Proof.
  destruct (prompt_k_total (commited st) (last_chunked_at st)
              (Nat.max 0 (List.length (commited st) - 1))) as (k & Hk & E); [lia|].
  exists k. split; [lia|]. split; [exact E|].
  unfold prompt. unfold bind at 1, get. rewrite E. reflexivity.
Qed.

(** The split index is the largest [k] below the length of [commited] such
    that [k = 0] or the word before position [k] ends at or before
    [last_chunked_at]. *)
Lemma prompt_k_largest (cm : list tsword) (lca : Q) (k0 k : nat) :
  k0 <= List.length cm ->
  prompt_k cm lca k0 = Some k ->
  k <= k0
  /\ (k = 0 \/ exists w, nth_error cm (k - 1) = Some w /\ (w_end w <= lca)%Q)
  /\ (forall j w, k <= j < k0 -> nth_error cm j = Some w -> (lca < w_end w)%Q).
Proof.
  induction k0 as [|k0 IH]; intros Hl E.
  - injection E as <-. split; [lia|]. split; [now left | intros; lia].
  - cbn [prompt_k] in E. rewrite py_index_nonneg in E by lia.
    destruct (nth_error cm k0) as [w0|] eqn:E0; [|discriminate].
    destruct (Qgtb (w_end w0) lca) eqn:Eg.
    + destruct (IH ltac:(lia) E) as (Hk & Hw & Hj).
      split; [lia|]. split; [exact Hw|].
      intros j w Hjk Ew. destruct (Nat.eq_dec j k0) as [->|].
      * rewrite E0 in Ew. injection Ew as <-. now apply Qgtb_lt.
      * apply (Hj j); [lia | exact Ew].
    + injection E as <-. split; [lia|]. split.
      * right. exists w0. cbn [Nat.sub]. rewrite Nat.sub_0_r.
        split; [exact E0 | now apply Qgtb_le].
      * intros; lia.
Qed.

(** The fuel of [prompt_loop] is enough: the loop takes the words of [p]
    from the last one backwards, as long as [l < 200]. *)
Lemma prompt_loop_taken (fuel : nat) (p : list string) (l : nat) (pr : list string) :
  List.length p <= fuel ->
  prompt_loop fuel p l pr = pr ++ prompt_taken (rev p) l.
Proof.
  revert p l pr. induction fuel as [|fuel IH]; intros p l pr Hf.
  - destruct p; [|simpl in Hf; lia]. cbn. now rewrite app_nil_r.
  - destruct p as [|x0 p0] eqn:Ep; [cbn; now rewrite app_nil_r|].
    rewrite <- Ep in *. cbn [prompt_loop]. rewrite Ep at 1.
    destruct (@exists_last _ p ltac:(congruence)) as (q & x & ->).
    rewrite rev_app_distr. cbn [rev app prompt_taken].
    destruct (l <? 200); [|now rewrite app_nil_r].
    rewrite last_last, removelast_last, IH.
    + now rewrite <- app_assoc.
    + rewrite length_app in Hf. simpl in Hf. lia.
Qed.

Lemma total_length_cons (x : string) (xs : list string) :
  total_length (x :: xs) = String.length x + total_length xs.
Proof. reflexivity. Qed.

Lemma prompt_taken_bound (rp : list string) (l L : nat) :
  (forall x, In x rp -> String.length x <= L) ->
  l < 200 ->
  total_length (prompt_taken rp l) + l <= 199 + L.
Proof.
  revert l. induction rp as [|x rp IH]; intros l HL Hl.
  - cbn. lia.
  - cbn [prompt_taken]. destruct (Nat.ltb_spec l 200); [|lia].
    rewrite total_length_cons.
    assert (Hx : String.length x <= L) by (apply HL; now left).
    destruct (Nat.lt_ge_cases (l + (String.length x + 1)) 200) as [Hn|Hn].
    + specialize (IH (l + (String.length x + 1)) (fun y Hy => HL y (or_intror Hy)) Hn).
      lia.
    + destruct rp as [|y rp]; cbn [prompt_taken].
      * cbn. lia.
      * destruct (Nat.ltb_spec (l + (String.length x + 1)) 200); [lia|].
        cbn. lia.
Qed.

Lemma length_join_empty (xs : list string) :
  String.length (py_join "" xs) = total_length xs.
Proof.
  induction xs as [|x xs IH]; [reflexivity|].
  rewrite total_length_cons. destruct xs as [|y xs].
  - cbn. lia.
  - rewrite join_cons2, !length_append, IH. reflexivity.
Qed.

Lemma total_length_rev (xs : list string) :
  total_length (rev xs) = total_length xs.
Proof.
  induction xs as [|x xs IH]; [reflexivity|].
  rewrite total_length_cons, <- IH. cbn [rev]. unfold total_length.
  rewrite map_app, list_sum_app. cbn. lia.
Qed.

(** What the code guarantees on the length of the prompt: fewer than 200
    characters plus the length of the longest committed text. *)
Lemma prompt_length_bound (st : OnlineASRProcessor) (L : nat) :
  (forall w, In w (commited st) -> String.length (w_text w) <= L) ->
  exists p c, prompt st = (st, Ok (p, c)) /\ String.length p <= 199 + L.
Proof.
  intros HL. destruct (prompt_total st) as (k & _ & _ & E).
  eexists. eexists. split; [exact E|].
  rewrite length_join_empty, total_length_rev, prompt_loop_taken by lia.
  cbn [app].
  pose proof (prompt_taken_bound (rev (texts (firstn k (commited st)))) 0 L) as B.
  rewrite Nat.add_0_r in B. apply B; [|lia].
  intros x Hx. apply in_rev in Hx. unfold texts in Hx. apply in_map_iff in Hx.
  destruct Hx as (w & <- & Hw). apply HL. now apply In_firstn in Hw.
Qed.

(** When every committed word ends at or before [last_chunked_at], the
    split index is one less than the length of [commited]. *)
Lemma prompt_k_all_scrolled (cm : list tsword) (lca : Q) :
  (forall w, In w cm -> (w_end w <= lca)%Q) ->
  prompt_k cm lca (Nat.max 0 (List.length cm - 1)) = Some (List.length cm - 1).
Proof.
  intros H. rewrite Nat.max_0_l.
  destruct (List.length cm - 1) as [|k] eqn:Ek; [reflexivity|].
  cbn [prompt_k]. rewrite py_index_nonneg by lia.
  destruct (nth_error cm k) as [w|] eqn:E.
  2:{ apply nth_error_None in E. lia. }
  apply nth_error_In in E. apply H, Qgtb_le in E. now rewrite E.
Qed.

(** C4, at the failing input.  With eleven committed words of 21 characters,
    all of them scrolled away, [prompt] returns a prompt of 210 characters:
    the test [l < 200] is made before a word is added, and the last word
    added takes the prompt past 200 characters. *)
Theorem prompt_longer_than_200 (a : ASRBase) (tk : Tokenizer) :
  let st := scrolled_processor a tk long_words 11 in
  let p := py_join "" (repeat " internationalization" 10) in
  prompt st = (st, Ok (p, " internationalization"))
  /\ String.length p = 210
  /\ ~ String.length p <= 200.
Proof.
  cbv zeta. split; [vm_compute; reflexivity|]. split; [reflexivity|].
  vm_compute. intros H. repeat (apply le_S_n in H). inversion H.
Qed.

(** C5, at the failing input.  Both committed words end at or before
    [last_chunked_at = 2], yet the split index is 1 and not 2: the loop
    starts from [len(self.commited) - 1], so the last committed word is
    never part of the prompt and always part of the context. *)
Theorem prompt_split_stops_before_last_word (a : ASRBase) (tk : Tokenizer) :
  let st := scrolled_processor a tk hello_world 2 in
  (forall w, In w (commited st) -> (w_end w <= last_chunked_at st)%Q)
  /\ prompt_k (commited st) (last_chunked_at st)
              (Nat.max 0 (List.length (commited st) - 1)) = Some 1
  /\ 1 <> List.length (commited st)
  /\ prompt st = (st, Ok ("Hello", " world")).
Proof.
  cbv zeta. split; [|repeat split; try reflexivity; discriminate].
  intros w [<-|[<-|[]]]; vm_compute; discriminate.
Qed.

(** ** OnlineASRProcessor.words_to_sentences *)

Lemma sentence_loop_cons (b e : Q) (w : string) (cwords : list tsword)
    (beg : option Q) (sent fsent : string) :
  sentence_loop ((b, e, w) :: cwords) beg sent fsent =
  if is_None beg && py_startswith sent w then
    sentence_loop cwords (Some b)
                  (py_strip (py_str_from (String.length w) sent)) fsent
  else if String.eqb sent w then (cwords, Some (beg, e, fsent))
  else sentence_loop cwords beg
                     (py_strip (py_str_from (String.length w) sent)) fsent.
Proof. reflexivity. Qed.



(** A single word is its own sentence, and no sentence is emitted either. *)
Lemma words_to_sentences_single_word :
  words_to_sentences one_sentence_tokenizer [(0%Q, 1%Q, "hello")] = [].
Proof. reflexivity. Qed.



(** ** OnlineASRProcessor.chunk_completed_segment *)

Lemma Qgtb_Qleb (x y : Q) : Qgtb x y = negb (Qleb x y).
Proof.
  destruct (Qgtb x y) eqn:E1, (Qleb x y) eqn:E2; try reflexivity.
  - apply Qgtb_lt in E1. apply Qleb_le in E2. lra.
  - apply Qgtb_le in E1. apply Qleb_le in E1. congruence.
Qed.

Lemma py_index_last {A : Type} (l : list A) (d : A) :
  l <> [] -> py_index l (-1) = Some (last l d).
Proof.
  intros H. destruct (exists_last H) as (l' & a & ->).
  change (-1)%Z with (- Z.of_nat 1)%Z.
  rewrite py_index_neg by (rewrite length_app; simpl; lia).
  rewrite rev_app_distr, last_last. reflexivity.
Qed.

Lemma py_index_second_last {A : Type} (z c : A) (cs : list A) :
  py_index (rev (z :: c :: cs)) (-2) = Some c.
Proof.
  change (-2)%Z with (- Z.of_nat 2)%Z.
  rewrite py_index_neg by (rewrite length_rev; simpl; lia).
  now rewrite rev_involutive.
Qed.

Lemma removelast_rev_cons {A : Type} (z : A) (l : list A) :
  removelast (rev (z :: l)) = rev l.
Proof. cbn [rev]. apply removelast_last. Qed.

(** The loop leaves in [e] the value described by [segment_walk]; as many
    rounds as [ends] has elements are enough. *)
Lemma segment_loop_walk (off t : Q) (cs : list Q) (z c : Q) (fuel : nat) :
  List.length cs <= fuel ->
  option_map snd (segment_loop fuel off t (rev (z :: c :: cs)) (c + off)%Q)
  = Some (segment_walk off t c cs).
Proof.
  revert z c fuel. induction cs as [|c' cs IH]; intros z c fuel Hf.
  - destruct fuel; reflexivity.
  - destruct fuel as [|fuel]; [simpl in Hf; lia|].
    cbn [segment_loop segment_walk].
    assert (Hl : (2 <? List.length (rev (z :: c :: c' :: cs))) = true).
    { apply Nat.ltb_lt. rewrite length_rev. simpl. lia. }
    rewrite Hl. cbn [andb].
    destruct (Qgtb (c + off) t); [|reflexivity].
    rewrite removelast_rev_cons, py_index_second_last.
    apply IH. simpl in Hf. lia.
Qed.

Lemma segment_walk_cut (off t : Q) (c : Q) (cs : list Q) :
  let e := segment_walk off t c cs in
  find (fun e => Qleb e t) (map (fun x => (x + off)%Q) (c :: cs))
  = if Qleb e t then Some e else None.
Proof.
  revert c. induction cs as [|c' cs IH]; intros c; cbn [segment_walk map find].
  - destruct (Qleb (c + off) t); reflexivity.
  - rewrite Qgtb_Qleb. destruct (Qleb (c + off) t) eqn:E; cbn [negb].
    + now rewrite E.
    + apply IH.
Qed.

Lemma chunk_completed_segment_unfold (st : OnlineASRProcessor) (res : list Segment) :
  commited st <> [] ->
  2 <= List.length (segments_end_ts res) ->
  chunk_completed_segment res st =
  match segment_cut (buffer_time_offset st)
                    (w_end (last (commited st) (0%Q, 0%Q, "")))
                    (segments_end_ts res) with
  | Some e => chunk_at e st
  | None => (st, Ok tt)
  end.
Proof.
  intros Hc Hl. unfold chunk_completed_segment. unfold bind at 1, get.
  destruct (commited st) as [|w0 cm] eqn:Ec; [congruence|]. rewrite <- Ec.
  rewrite (py_index_last _ (0%Q, 0%Q, "")) by congruence.
  unfold bind at 1. cbn [index_or_raise ret].
  destruct (Nat.ltb_spec 1 (List.length (segments_end_ts res))); [|lia].
  set (ends := segments_end_ts res) in *.
  destruct (rev ends) as [|z [|c cs]] eqn:Er;
    try (apply (f_equal (@List.length Q)) in Er; rewrite length_rev in Er;
         simpl in Er; lia).
  assert (Ee : ends = rev (z :: c :: cs)) by (now rewrite <- Er, rev_involutive).
  rewrite Ee. rewrite py_index_second_last.
  unfold bind at 1. cbn [index_or_raise ret].
  pose proof (segment_loop_walk (buffer_time_offset st)
                (w_end (last (commited st) (0%Q, 0%Q, ""))) cs z c
                (List.length (rev (z :: c :: cs)))) as Hw.
  destruct (segment_loop _ _ _ _ _) as [[ends' e]|].
  2:{ discriminate Hw. rewrite length_rev. simpl. lia. }
  cbn [option_map snd] in Hw.
  assert (He : e = segment_walk (buffer_time_offset st)
                     (w_end (last (commited st) (0%Q, 0%Q, ""))) c cs).
  { assert (Some e = Some (segment_walk (buffer_time_offset st)
                     (w_end (last (commited st) (0%Q, 0%Q, ""))) c cs)) as [= ->].
    { apply Hw. rewrite length_rev. simpl. lia. }
    reflexivity. }
  unfold bind at 1. cbn [index_or_raise ret snd].
  unfold segment_cut, segment_candidates.
  rewrite removelast_rev_cons, rev_involutive, segment_walk_cut.
  cbv zeta. rewrite <- He. destruct (Qleb e _); reflexivity.
Qed.

Lemma find_first {A : Type} (f : A -> bool) (pre post : list A) (e : A) :
  Forall (fun x => f x = false) pre -> f e = true ->
  find f (pre ++ e :: post) = Some e.
Proof.
  intros Hpre He. induction Hpre as [|x pre Hx _ IH]; cbn [app find].
  - now rewrite He.
  - now rewrite Hx.
Qed.

Lemma find_none_all {A : Type} (f : A -> bool) (l : list A) :
  Forall (fun x => f x = false) l -> find f l = None.
Proof.
  intros H. induction H as [|x l Hx _ IH]; cbn [find]; [reflexivity|].
  now rewrite Hx.
Qed.

Lemma Forall_beyond (t : Q) (l : list Q) :
  Forall (fun x => (t < x)%Q) l -> Forall (fun x => Qleb x t = false) l.
Proof.
  apply Forall_impl. intros x H. destruct (Qleb x t) eqn:E; [|reflexivity].
  apply Qleb_le in E. lra.
Qed.

(** C7. With a non-empty committed log whose last word ends at [t]:
    with fewer than two segment ends, [chunk_completed_segment] does nothing;
    otherwise the candidates are the ends but the last one, shifted by the
    offset and taken from the second-to-last one backwards, and the method
    is [chunk_at e] for the first candidate [e <= t], all candidates before
    it being beyond [t]; when every candidate is beyond [t], it does nothing
    and the state is unchanged. *)
Theorem chunk_completed_segment_spec (st : OnlineASRProcessor) (res : list Segment) :
  commited st <> [] ->
  let t := w_end (last (commited st) (0%Q, 0%Q, "")) in
  let ends := segments_end_ts res in
  let cands := segment_candidates (buffer_time_offset st) ends in
  (List.length ends < 2 -> chunk_completed_segment res st = (st, Ok tt))
  /\ (2 <= List.length ends ->
      (forall pre e post,
          cands = pre ++ e :: post ->
          Forall (fun x => (t < x)%Q) pre -> (e <= t)%Q ->
          chunk_completed_segment res st = chunk_at e st)
      /\ (Forall (fun x => (t < x)%Q) cands ->
          chunk_completed_segment res st = (st, Ok tt))).
Proof.
  intros Hc t ends cands. split.
  - intros Hl. unfold chunk_completed_segment. unfold bind at 1, get.
    destruct (commited st) as [|w0 cm] eqn:Ec; [congruence|]. rewrite <- Ec.
    rewrite (py_index_last _ (0%Q, 0%Q, "")) by congruence.
    unfold bind at 1. cbn [index_or_raise ret].
    fold ends. destruct (Nat.ltb_spec 1 (List.length ends)); [lia | reflexivity].
  - intros Hl. rewrite (chunk_completed_segment_unfold st res Hc Hl).
    fold t. unfold segment_cut. fold ends. fold cands. split.
    + intros pre e post -> Hpre He.
      rewrite (find_first (fun e => Qleb e t) pre post e); [reflexivity | |].
      * now apply Forall_beyond.
      * now apply Qleb_le.
    + intros Hall. rewrite find_none_all; [reflexivity|].
      now apply Forall_beyond.
Qed.

Lemma chunk_completed_segment_spec_witness :
  chunk_completed_segment three_segments processor_commited_to_12
  = chunk_at (10 + 0)%Q processor_commited_to_12.
Proof.
  assert (Hc : commited processor_commited_to_12 <> []) by discriminate.
  destruct (chunk_completed_segment_spec processor_commited_to_12 three_segments Hc)
    as [_ H].
  destruct H as [H _]; [vm_compute; lia|].
  apply (H [(20.5 + 0)%Q] (10 + 0)%Q []).
  - reflexivity.
  - repeat constructor.
  - vm_compute. discriminate.
Defined.

(** ** OnlineASRProcessor.chunk_at and the offset of the audio buffer *)

Lemma chunk_at_unfold (time : Q) (st : OnlineASRProcessor) :
  chunk_at time st =
  ({| asr := asr st;
      tokenizer := tokenizer st;
      audio_buffer :=
        py_slice_from (py_int (time - buffer_time_offset st) * SAMPLING_RATE)%Z
                      (audio_buffer st);
      buffer_time_offset := time;
      transcript_buffer := pop_commited time (transcript_buffer st);
      commited := commited st;
      last_chunked_at := time;
      silence_iters := silence_iters st |},
   Ok tt).
Proof. reflexivity. Qed.

(** A session in which [process_iter] moves the offset back.  After 32 s the
    committed text is "Hi there. How": the buffer is longer than 30 s and is
    scrolled at the end of the second segment, 21 s.  The next iteration
    commits "are you", which completes a second sentence, and the buffer is
    scrolled at the end of the first sentence, 2 s. *)
Lemma session_offsets :
  (buffer_time_offset session_after_32s == 21)%Q
  /\ (buffer_time_offset session_after_33s == 2)%Q.
Proof. split; vm_compute; reflexivity. Qed.

(** The claim of C8 fails: a second [chunk_at] at the same time leaves the
    offset where it was, a [chunk_at] at an earlier time moves it back, and
    in the session above one call of [process_iter] moves the offset back
    from 21 s to 2 s. *)
Lemma chunk_at_offset_not_increasing :
  let st1 := fst (chunk_at 5 (init silent_asr one_sentence_tokenizer)) in
  let st2 := fst (chunk_at 5 st1) in
  let st3 := fst (chunk_at 3 st1) in
  ~ (buffer_time_offset st1 < buffer_time_offset st2)%Q
  /\ ~ (buffer_time_offset st1 <= buffer_time_offset st3)%Q
  /\ session_after_33s = fst (feed (seconds_of_audio 1) session_after_32s)
  /\ ~ (buffer_time_offset session_after_32s
        <= buffer_time_offset session_after_33s)%Q.
Proof.
  cbv zeta. split; [|split; [|split; [reflexivity|]]].
  - vm_compute. discriminate.
  - vm_compute. intros H. now apply H.
  - vm_compute. intros H. now apply H.
Qed.

(** C8, amended.  [chunk_at time] raises nothing and sets both the offset and
    [last_chunked_at] to [time].  A call with [time] at or after the offset
    does not move the offset back, and a call with [time] after the offset
    increases it strictly.  [insert_audio_chunk] and [finish] leave the
    offset as it was. *)
Theorem chunk_at_sets_offset (st : OnlineASRProcessor) (time : Q) :
  let st' := fst (chunk_at time st) in
  snd (chunk_at time st) = Ok tt
  /\ buffer_time_offset st' = time
  /\ last_chunked_at st' = time
  /\ ((buffer_time_offset st <= time)%Q ->
      (buffer_time_offset st <= buffer_time_offset st')%Q)
  /\ ((buffer_time_offset st < time)%Q ->
      (buffer_time_offset st < buffer_time_offset st')%Q)
  /\ (forall audio,
         buffer_time_offset (fst (insert_audio_chunk audio st))
         = buffer_time_offset st)
  /\ buffer_time_offset (fst (finish st)) = buffer_time_offset st.
Proof.
  rewrite chunk_at_unfold. cbn [fst snd buffer_time_offset last_chunked_at].
  repeat split; auto.
Qed.

(** ** OnlineASRProcessor.process_iter when the transcriber fails *)

(** C9. When the call of the transcriber on the audio buffer and the prompt
    raises, [process_iter] raises the same exception and the processor is
    left exactly as it was: audio buffer, offset, hypothesis buffer,
    committed log and [last_chunked_at]. *)
Theorem process_iter_transcriber_error (st : OnlineASRProcessor) (e : exn) :
  (forall pc, prompt st = (st, Ok pc) ->
              transcribe (asr st) (audio_buffer st) (fst pc) = Raise e) ->
  process_iter st = (st, Raise e).
Proof.
  intros H. destruct (prompt_total st) as (k & _ & _ & Ep).
  specialize (H _ Ep). unfold process_iter.
  unfold bind at 1. rewrite Ep. unfold bind at 1, get.
  unfold bind at 1, call. rewrite H. reflexivity.
Qed.

Lemma process_iter_transcriber_error_witness :
  process_iter (init failing_asr one_sentence_tokenizer)
  = (init failing_asr one_sentence_tokenizer,
     Raise (TranscriberError "transcription failed")).
Proof.
  apply (process_iter_transcriber_error
           (init failing_asr one_sentence_tokenizer)
           (TranscriberError "transcription failed")).
  intros pc _. reflexivity.
Defined.

(** ** OnlineASRProcessor.finish *)

(** C10. [finish] raises nothing and leaves the processor exactly as it was,
    so a second call returns the same triple; on a fresh processor it
    returns [(None, None, "")]. *)
Theorem finish_changes_nothing (st : OnlineASRProcessor) :
  fst (finish st) = st
  /\ (exists f, snd (finish st) = Ok f
                /\ snd (finish (fst (finish st))) = Ok f
                /\ f = to_flush (buffer (transcript_buffer st)) None 0)
  /\ (forall a tk, finish (init a tk) = (init a tk, Ok (None, None, ""))).
Proof.
  split; [reflexivity|]. split; [|reflexivity].
  eexists. repeat split.
Qed.

(** ** A session of two iterations *)

(** Nothing is committed by the first iteration; the second one commits the
    two words on which both transcriptions agree and keeps the third one as
    the incomplete tail, which [finish] returns. *)
Example hello_world_session :
  let st0 := init hello_asr period_tokenizer in
  let r1 := feed (seconds_of_audio 2) st0 in
  let r2 := feed (seconds_of_audio 1) (fst r1) in
  snd r1 = Ok (None, None, "")
  /\ buffer (transcript_buffer (fst r1))
     = [(0, 0.4, "hello"); (0.5, 0.9, " world")]%Q
  /\ snd r2 = Ok (Some 0%Q, Some 0.9%Q, "hello world")
  /\ commited (fst r2) = [(0, 0.4, "hello"); (0.5, 0.9, " world")]%Q
  /\ snd (finish (fst r2)) = Ok (Some 1.1%Q, Some 1.4%Q, " today").
Proof. cbv zeta. repeat split; vm_compute; reflexivity. Qed.

(** * The remaining methods *)

(** ** HypothesisBuffer.pop_commited *)

Lemma pop_commited_loop_split (time : Q) (cib : list tsword) :
  exists dropped,
    cib = dropped ++ pop_commited_loop time cib
    /\ Forall (fun w => (w_end w <= time)%Q) dropped.
Proof.
  induction cib as [|w cib (dropped & E & H)].
  - exists []. split; [reflexivity | constructor].
  - cbn [pop_commited_loop]. destruct (Qleb (w_end w) time) eqn:El.
    + exists (w :: dropped). split; [cbn; now f_equal|].
      constructor; [now apply Qleb_le | exact H].
    + exists []. split; [reflexivity | constructor].
Qed.

Lemma pop_commited_loop_head (time : Q) (cib : list tsword) (w : tsword)
    (rest : list tsword) :
  pop_commited_loop time cib = w :: rest -> Qleb (w_end w) time = false.
Proof.
  induction cib as [|w0 cib IH]; [discriminate|].
  cbn [pop_commited_loop]. destruct (Qleb (w_end w0) time) eqn:El; [exact IH|].
  intros [= <- _]. exact El.
Qed.

Lemma pop_commited_loop_idem (time : Q) (cib : list tsword) :
  pop_commited_loop time (pop_commited_loop time cib) = pop_commited_loop time cib.
Proof.
  destruct (pop_commited_loop time cib) as [|w rest] eqn:E; [reflexivity|].
  cbn [pop_commited_loop]. now rewrite (pop_commited_loop_head _ _ _ _ E).
Qed.

(** X1. [pop_commited time] removes from the front of [commited_in_buffer]
    the longest run of words that end at or before [time]: the words removed
    all end at or before [time], the first word kept, if any, ends after
    [time], and the other fields are untouched.  A second call with the same
    time changes nothing. *)
Theorem pop_commited_drops_scrolled_prefix (time : Q) (hb : HypothesisBuffer) :
  let hb' := pop_commited time hb in
  (exists dropped,
      commited_in_buffer hb = dropped ++ commited_in_buffer hb'
      /\ Forall (fun w => (w_end w <= time)%Q) dropped)
  /\ (forall w rest, commited_in_buffer hb' = w :: rest -> (time < w_end w)%Q)
  /\ buffer hb' = buffer hb
  /\ new hb' = new hb
  /\ last_commited_time hb' = last_commited_time hb
  /\ last_commited_word hb' = last_commited_word hb
  /\ pop_commited time hb' = hb'.
Proof.
  cbv zeta. split; [apply pop_commited_loop_split|].
  split.
  - intros w rest E. cbn [pop_commited commited_in_buffer] in E.
    apply pop_commited_loop_head in E.
    destruct (Qlt_le_dec time (w_end w)) as [H|H]; [exact H|].
    apply Qleb_le in H. congruence.
  - repeat split. unfold pop_commited. cbn [commited_in_buffer buffer new
      last_commited_time last_commited_word].
    now rewrite pop_commited_loop_idem.
Qed.

(** ** HypothesisBuffer.insert in every state *)

(** X2. In every state [insert] raises nothing and changes [new] only.  The
    words it leaves in [new] are words of the input shifted by [offset],
    they start after [last_commited_time - 0.1], they keep their order, and
    at most 5 of the words that pass this test are missing, all from the
    front. *)
Theorem insert_changes_only_new
    (hb : HypothesisBuffer) (new_words : list tsword) (offset : Q) :
  let hb' := fst (insert new_words offset hb) in
  let surv := keep_after (last_commited_time hb) (shift_words offset new_words) in
  snd (insert new_words offset hb) = Ok tt
  /\ commited_in_buffer hb' = commited_in_buffer hb
  /\ buffer hb' = buffer hb
  /\ last_commited_time hb' = last_commited_time hb
  /\ last_commited_word hb' = last_commited_word hb
  /\ (exists d, d <= 5 /\ new hb' = skipn d surv)
  /\ (forall w, In w (new hb') ->
        In w (shift_words offset new_words)
        /\ (last_commited_time hb - 0.1 < w_beg w)%Q).
Proof.
  cbv zeta. destruct (insert_result hb new_words offset) as (d & Hd & E).
  rewrite E. cbn [fst snd set_new commited_in_buffer buffer new
    last_commited_time last_commited_word].
  repeat split.
  - exists d. split; [exact Hd | reflexivity].
  - apply In_skipn, keep_after_In in H. tauto.
  - apply In_skipn, keep_after_In in H. tauto.
Qed.

Lemma insert_without_nothing_commited
    (hb : HypothesisBuffer) (new_words : list tsword) (offset : Q) :
  commited_in_buffer hb = [] ->
  insert new_words offset hb
  = (set_new (keep_after (last_commited_time hb) (shift_words offset new_words)) hb,
     Ok tt).
Proof.
  intros H. unfold insert.
  unfold bind at 1, get. unfold bind at 1, modify. unfold bind at 1, get.
  cbn [new set_new last_commited_time commited_in_buffer]. rewrite H.
  destruct (keep_after _ _) as [|[[a b] t] rest]; [reflexivity|].
  destruct (Qltb _ _); reflexivity.
Qed.

(** X3. With an empty [commited_in_buffer], or with a first surviving word
    that starts a second or more away from [last_commited_time], [insert]
    removes no repetition: [new] is the list of all the shifted words that
    start after [last_commited_time - 0.1]. *)
Theorem insert_without_dedup
    (hb : HypothesisBuffer) (new_words : list tsword) (offset : Q) :
  let surv := keep_after (last_commited_time hb) (shift_words offset new_words) in
  commited_in_buffer hb = []
  \/ (forall w rest, surv = w :: rest ->
        (1 <= Qabs (w_beg w - last_commited_time hb))%Q) ->
  insert new_words offset hb = (set_new surv hb, Ok tt).
Proof.
  intros surv H. unfold insert.
  unfold bind at 1, get. unfold bind at 1, modify. unfold bind at 1, get.
  cbn [new set_new last_commited_time commited_in_buffer]. fold surv.
  destruct surv as [|[[a b] t] rest] eqn:Es; [reflexivity|].
  destruct H as [H|H].
  - rewrite H. destruct (Qltb _ _); reflexivity.
  - specialize (H _ _ eq_refl). unfold w_beg in H. cbn [fst] in H.
    destruct (Qltb (Qabs (a - last_commited_time hb)) 1) eqn:El; [|reflexivity].
    apply Qltb_lt in El. lra.
Qed.

Lemma insert_without_dedup_witness :
  insert words_iter2 0 HypothesisBuffer_init
  = (set_new (keep_after 0 (shift_words 0 words_iter2)) HypothesisBuffer_init,
     Ok tt).
Proof.
  apply (insert_without_dedup HypothesisBuffer_init words_iter2 0).
  left. reflexivity.
Defined.

(** ** HypothesisBuffer.flush and the agreement of two transcriptions *)

Lemma common_prefix_len_same (l : list string) :
  common_prefix_len l l = List.length l.
Proof.
  induction l as [|x l IH]; [reflexivity|].
  cbn [common_prefix_len List.length]. now rewrite String.eqb_refl, IH.
Qed.

(** X4. A [flush] that follows a [flush] with no [insert] in between commits
    nothing and empties [buffer]: the proposal that was waiting for its
    confirmation is lost, the committed words and the last committed time
    stay. *)
Theorem flush_twice_clears_buffer (hb : HypothesisBuffer) :
  let hb1 := fst (flush hb) in
  let hb2 := fst (flush hb1) in
  snd (flush hb1) = []
  /\ buffer hb2 = []
  /\ new hb2 = []
  /\ commited_in_buffer hb2 = commited_in_buffer hb1
  /\ last_commited_time hb2 = last_commited_time hb1
  /\ last_commited_word hb2 = last_commited_word hb1.
Proof.
  cbv zeta. rewrite (flush_unfold hb). cbn [fst].
  rewrite flush_unfold. cbn [fst snd new buffer commited_in_buffer
    last_commited_time last_commited_word texts map common_prefix_len firstn
    skipn last].
  rewrite app_nil_r. repeat split.
Qed.

(** X5. Two identical transcriptions at the same offset on a fresh buffer:
    the first one commits nothing and leaves in [buffer] the words that start
    after -0.1 s; the second one commits all of them, in order, and leaves
    [buffer] empty. *)
Theorem second_identical_transcription_commits_all
    (ws : list tsword) (offset : Q) :
  let surv := keep_after 0 (shift_words offset ws) in
  let hb1 := insert_then_flush ws offset HypothesisBuffer_init in
  let hb2 := insert_then_flush ws offset hb1 in
  commited_in_buffer hb1 = []
  /\ buffer hb1 = surv
  /\ last_commited_time hb1 = 0%Q
  /\ snd (flush (fst (insert ws offset hb1))) = surv
  /\ commited_in_buffer hb2 = surv
  /\ buffer hb2 = [].
Proof.
  cbv zeta.
  assert (E1 : insert_then_flush ws offset HypothesisBuffer_init
               = {| commited_in_buffer := [];
                    buffer := keep_after 0 (shift_words offset ws);
                    new := [];
                    last_commited_time := 0;
                    last_commited_word := None |}).
  { unfold insert_then_flush.
    rewrite (insert_without_nothing_commited HypothesisBuffer_init) by reflexivity.
    cbn [fst]. rewrite flush_unfold. cbn [fst set_new new buffer
      commited_in_buffer last_commited_time last_commited_word
      HypothesisBuffer_init].
    destruct (texts (keep_after 0 (shift_words offset ws))); reflexivity. }
  rewrite E1. cbn [commited_in_buffer buffer last_commited_time].
  unfold insert_then_flush.
  rewrite insert_without_nothing_commited by reflexivity.
  cbn [fst last_commited_time]. rewrite flush_unfold.
  cbn [fst snd set_new new buffer commited_in_buffer].
  rewrite common_prefix_len_same. unfold texts. rewrite length_map.
  rewrite firstn_all, skipn_all. repeat split.
Qed.

(** ** The hypothesis buffer records its last commit *)

Lemma last_app_nonempty {A : Type} (l l' : list A) (d d' : A) :
  l' <> [] -> last (l ++ l') d = last l' d'.
Proof.
  intros H. destruct (exists_last H) as (q & x & ->).
  now rewrite app_assoc, !last_last.
Qed.

Lemma last_map_cons {A B : Type} (f : A -> B) (x : A) (l : list A) (d : B) :
  last (map f (x :: l)) d = f (last l x).
Proof.
  revert x d. induction l as [|y l IH]; intros x d; [reflexivity|].
  change (map f (x :: y :: l)) with (f x :: map f (y :: l)).
  rewrite last_cons_default, IH. now rewrite (last_cons_default y l x).
Qed.

Lemma last_commit_recorded_alt (hb : HypothesisBuffer) :
  last_commit_recorded hb <->
  (commited_in_buffer hb <> [] ->
   last_commited_time hb = w_end (last (commited_in_buffer hb) (0%Q, 0%Q, ""))
   /\ last_commited_word hb
      = Some (w_text (last (commited_in_buffer hb) (0%Q, 0%Q, "")))).
Proof.
  unfold last_commit_recorded. split.
  - intros H Hne. destruct (commited_in_buffer hb) as [|w ws]; [congruence|].
    rewrite last_cons_default. now apply H.
  - intros H w ws E. rewrite E in H. rewrite last_cons_default in H.
    apply H. discriminate.
Qed.

Lemma last_commit_recorded_insert (hb : HypothesisBuffer) (ws : list tsword)
    (offset : Q) :
  last_commit_recorded hb -> last_commit_recorded (fst (insert ws offset hb)).
Proof.
  intros H. destruct (insert_result hb ws offset) as (d & _ & ->). exact H.
Qed.

Lemma last_commit_recorded_flush (hb : HypothesisBuffer) :
  last_commit_recorded hb -> last_commit_recorded (fst (flush hb)).
Proof.
  intros H. apply last_commit_recorded_alt.
  pose proof (proj1 (last_commit_recorded_alt hb) H) as H'. clear H.
  rewrite flush_unfold. cbn [fst commited_in_buffer last_commited_time
    last_commited_word].
  set (commit := firstn _ (new hb)). intros Hne.
  destruct commit as [|c0 cs].
  - rewrite app_nil_r in *. cbn [map last]. now apply H'.
  - rewrite !last_map_cons.
    rewrite (last_app_nonempty _ (c0 :: cs) _ c0) by discriminate.
    rewrite last_cons_default. split; reflexivity.
Qed.

Lemma last_commit_recorded_pop (hb : HypothesisBuffer) (time : Q) :
  last_commit_recorded hb -> last_commit_recorded (pop_commited time hb).
Proof.
  intros H. apply last_commit_recorded_alt.
  pose proof (proj1 (last_commit_recorded_alt hb) H) as H'. clear H.
  cbn [pop_commited commited_in_buffer last_commited_time last_commited_word].
  destruct (pop_commited_loop_split time (commited_in_buffer hb))
    as (dropped & E & _).
  remember (pop_commited_loop time (commited_in_buffer hb)) as kept eqn:Ek.
  clear Ek. intros Hne. rewrite E in H'.
  rewrite (last_app_nonempty _ _ _ (0%Q, 0%Q, "") Hne) in H'.
  apply H'. destruct dropped; [exact Hne | discriminate].
Qed.

(** X6. A hypothesis buffer in which [last_commited_time] and
    [last_commited_word] are the end and the text of the last word of a
    non-empty [commited_in_buffer] stays so through [insert], [flush] and
    [pop_commited]. *)
Theorem last_commit_recorded_kept (hb : HypothesisBuffer) :
  last_commit_recorded hb ->
  (forall ws offset, last_commit_recorded (fst (insert ws offset hb)))
  /\ last_commit_recorded (fst (flush hb))
  /\ (forall time, last_commit_recorded (pop_commited time hb)).
Proof.
  intros H. split; [|split].
  - intros ws offset. now apply last_commit_recorded_insert.
  - now apply last_commit_recorded_flush.
  - intros time. now apply last_commit_recorded_pop.
Qed.

Lemma last_commit_recorded_kept_witness :
  last_commit_recorded HypothesisBuffer_init
  /\ last_commit_recorded
       (fst (flush (fst (insert words_iter1 0 HypothesisBuffer_init)))).
Proof.
  assert (H : last_commit_recorded HypothesisBuffer_init).
  { intros w ws E. discriminate E. }
  split; [exact H|].
  destruct (last_commit_recorded_kept HypothesisBuffer_init H) as (Hi & _).
  exact (proj1 (proj2 (last_commit_recorded_kept _ (Hi words_iter1 0%Q)))).
Defined.

(** ** OnlineASRProcessor.to_flush *)

Lemma append_assoc (a b c : string) :
  ((a ++ b) ++ c)%string = (a ++ (b ++ c))%string.
Proof. induction a as [|x a IH]; cbn; [reflexivity | now rewrite IH]. Qed.

Lemma join_app (sep : string) (a b : list string) :
  a <> [] -> b <> [] ->
  py_join sep (a ++ b) = (py_join sep a ++ sep ++ py_join sep b)%string.
Proof.
  intros Ha Hb. induction a as [|x a IH]; [congruence|].
  destruct a as [|y a].
  - destruct b as [|z b]; [congruence|]. reflexivity.
  - change ((x :: y :: a) ++ b) with (x :: y :: (a ++ b)).
    rewrite !join_cons2. change (y :: a ++ b) with ((y :: a) ++ b).
    rewrite IH by discriminate. now rewrite !append_assoc.
Qed.

(** X7. [to_flush] of two non-empty lists put end to end starts where the
    result for the first list starts, ends where the result for the second
    list ends, and its text is the two texts with the separator in between
    (nothing in between for the default separator). *)
Theorem to_flush_app (a b : list tsword) (sep : option string) (offset : Q) :
  a <> [] -> b <> [] ->
  let s := match sep with None => "" | Some s => s end in
  to_flush (a ++ b) sep offset
  = (fst (fst (to_flush a sep offset)),
     snd (fst (to_flush b sep offset)),
     (snd (to_flush a sep offset) ++ s ++ snd (to_flush b sep offset))%string).
Proof.
  intros Ha Hb s. unfold to_flush. fold s.
  destruct a as [|a0 a]; [congruence|]. destruct b as [|b0 b]; [congruence|].
  cbn [app fst snd]. f_equal; [f_equal|].
  - do 3 f_equal. change (a0 :: a ++ b0 :: b) with ((a0 :: a) ++ b0 :: b).
    now apply last_app_nonempty.
  - unfold texts. change (a0 :: a ++ b0 :: b) with ((a0 :: a) ++ b0 :: b).
    rewrite map_app. apply join_app; discriminate.
Qed.

Lemma to_flush_app_witness :
  to_flush (hello_world ++ two_words) None 0
  = (Some (0 + 0)%Q, Some (0 + 2)%Q, "Hello worldhelloworld").
Proof.
  exact (to_flush_app hello_world two_words None 0%Q
           ltac:(discriminate) ltac:(discriminate)).
Defined.

(** ** OnlineASRProcessor.words_to_sentences in general *)

Lemma sentence_loop_props (cwords : list tsword) (beg : option Q)
    (sent fsent : string) :
  let r := sentence_loop cwords beg sent fsent in
  List.length (fst r) <= List.length cwords
  /\ (forall w, In w (fst r) -> In w cwords)
  /\ (forall s, snd r = Some s ->
        List.length (fst r) < List.length cwords
        /\ snd s = fsent
        /\ (exists w, In w cwords /\ snd (fst s) = w_end w)
        /\ (forall b, fst (fst s) = Some b ->
              beg = Some b \/ exists w, In w cwords /\ b = w_beg w)).
Proof.
  revert beg sent. induction cwords as [|[[b e] w] cwords IH]; intros beg sent.
  - cbn. split; [lia|]. split; [auto|]. intros x Ex. discriminate Ex.
  - rewrite sentence_loop_cons.
    destruct (is_None beg && py_startswith sent w).
    + specialize (IH (Some b) (py_strip (py_str_from (String.length w) sent))).
      cbv zeta in IH. destruct IH as (Hl & Hin & Hs).
      split; [simpl; lia|]. split; [intros x Hx; right; auto|].
      intros s Es. destruct (Hs s Es) as (H1 & H2 & (x & Hx & Ex) & H4).
      split; [simpl; lia|]. split; [exact H2|].
      split; [exists x; split; [now right | exact Ex]|].
      intros b' Eb. destruct (H4 b' Eb) as [[= <-]|(y & Hy & Ey)].
      * right. exists (b, e, w). split; [now left | reflexivity].
      * right. exists y. split; [now right | exact Ey].
    + destruct (String.eqb sent w).
      * cbn [fst snd]. split; [simpl; lia|]. split; [intros x Hx; now right|].
        intros s [= <-]. cbn [fst snd]. split; [simpl; lia|].
        split; [reflexivity|].
        split; [exists (b, e, w); split; [now left | reflexivity]|].
        intros b' Eb. now left.
      * specialize (IH beg (py_strip (py_str_from (String.length w) sent))).
        cbv zeta in IH. destruct IH as (Hl & Hin & Hs).
        split; [simpl; lia|]. split; [intros x Hx; right; auto|].
        intros s Es. destruct (Hs s Es) as (H1 & H2 & (x & Hx & Ex) & H4).
        split; [simpl; lia|]. split; [exact H2|].
        split; [exists x; split; [now right | exact Ex]|].
        intros b' Eb. destruct (H4 b' Eb) as [Hb|(y & Hy & Ey)].
        -- now left.
        -- right. exists y. split; [now right | exact Ey].
Qed.

(** The property of an emitted sentence: its text is a stripped sentence of
    the tokenizer, its end is the end of a word, and its start, when it has
    one, is the start of a word. *)
Lemma sentences_loop_props (s : list string) (cwords : list tsword)
    (out : list sentence) :
  exists extra,
    sentences_loop s cwords out = out ++ extra
    /\ List.length extra <= List.length s
    /\ List.length extra <= List.length cwords
    /\ Forall (fun x =>
                 (exists s0, In s0 s /\ snd x = py_strip s0)
                 /\ (exists w, In w cwords /\ snd (fst x) = w_end w)
                 /\ (forall b, fst (fst x) = Some b ->
                       exists w, In w cwords /\ b = w_beg w)) extra.
Proof.
  revert cwords out. induction s as [|s0 s IH]; intros cwords out.
  - exists []. cbn. rewrite app_nil_r. repeat split; auto; lia.
  - cbn [sentences_loop].
    pose proof (sentence_loop_props cwords None (py_strip s0) (py_strip s0)) as P.
    cbv zeta in P.
    destruct (sentence_loop cwords None (py_strip s0) (py_strip s0)) as [cw' r].
    cbn [fst snd] in P. destruct P as (Hl & Hin & Hs).
    destruct (IH cw' (match r with Some x => out ++ [x] | None => out end))
      as (extra & E & L1 & L2 & F).
    assert (F' : Forall (fun x =>
                 (exists s1, In s1 (s0 :: s) /\ snd x = py_strip s1)
                 /\ (exists w, In w cwords /\ snd (fst x) = w_end w)
                 /\ (forall b, fst (fst x) = Some b ->
                       exists w, In w cwords /\ b = w_beg w)) extra).
    { eapply Forall_impl; [|exact F]. cbv beta.
      intros x ((s1 & Hs1 & E1) & (w1 & Hw1 & E2) & H3).
      split; [exists s1; split; [now right | exact E1]|].
      split; [exists w1; split; [now apply Hin | exact E2]|].
      intros b Hb. destruct (H3 b Hb) as (w2 & Hw2 & E3).
      exists w2. split; [now apply Hin | exact E3]. }
    destruct r as [x|].
    + destruct (Hs x eq_refl) as (H1 & H2 & H3 & H4).
      exists (x :: extra). rewrite E, <- app_assoc.
      split; [reflexivity|]. split; [simpl; lia|]. split; [simpl; lia|].
      constructor; [|exact F'].
      split; [exists s0; split; [now left | exact H2]|].
      split; [exact H3|].
      intros b Hb. destruct (H4 b Hb) as [[=]|H5]; exact H5.
    + exists extra. split; [exact E|]. split; [simpl; lia|].
      split; [lia | exact F'].
Qed.

(** X8. [words_to_sentences] emits at most one sentence for each sentence of
    the tokenizer and at most one for each word.  The text of an emitted
    sentence is a sentence of the tokenizer, stripped; its end is the end of
    one of the words and its start, when it is not [None], is the start of
    one of the words.  Without words nothing is emitted. *)
Theorem words_to_sentences_bounds (tk : Tokenizer) (ws : list tsword) :
  let out := words_to_sentences tk ws in
  let sents := split tk (py_join " " (texts ws)) in
  List.length out <= List.length sents
  /\ List.length out <= List.length ws
  /\ Forall (fun x =>
               (exists s0, In s0 sents /\ snd x = py_strip s0)
               /\ (exists w, In w ws /\ snd (fst x) = w_end w)
               /\ (forall b, fst (fst x) = Some b ->
                     exists w, In w ws /\ b = w_beg w)) out
  /\ (ws = [] -> out = []).
Proof.
  cbv zeta. unfold words_to_sentences.
  destruct (sentences_loop_props (split tk (py_join " " (texts ws))) ws [])
    as (extra & -> & L1 & L2 & F).
  cbn [app]. repeat split; auto.
  intros ->. destruct extra; [reflexivity | simpl in L2; lia].
Qed.

(** ** OnlineASRProcessor.chunk_completed_sentence *)

Lemma keep_last_two_skipn {A : Type} (l : list A) :
  keep_last_two l = skipn (List.length l - 2) l.
Proof.
  induction l as [|x l IH]; [reflexivity|].
  cbn [keep_last_two]. destruct (Nat.ltb_spec 2 (List.length (x :: l))) as [H|H].
  - rewrite IH. simpl in H.
    replace (List.length (x :: l) - 2) with (S (List.length l - 2))
      by (simpl; lia).
    reflexivity.
  - replace (List.length (x :: l) - 2) with 0 by lia. reflexivity.
Qed.

Lemma py_index_from_end {A : Type} (l : list A) (j : nat) :
  1 <= j <= List.length l ->
  py_index l (- Z.of_nat j) = nth_error l (List.length l - j).
Proof.
  intros H. unfold py_index.
  destruct (Z.leb_spec 0 (- Z.of_nat j)); [lia|].
  destruct (Z.leb_spec (- Z.of_nat (List.length l)) (- Z.of_nat j)); [|lia].
  destruct (Z.ltb_spec (- Z.of_nat j) 0); [|lia].
  cbn [andb]. f_equal. lia.
Qed.

Lemma words_to_sentences_nil (tk : Tokenizer) : words_to_sentences tk [] = [].
Proof.
  unfold words_to_sentences.
  destruct (sentences_loop_props (split tk (py_join " " (texts []))) [] [])
    as (extra & -> & _ & L & _).
  destruct extra; [reflexivity | simpl in L; lia].
Qed.

Lemma chunk_completed_sentence_unfold (st : OnlineASRProcessor) :
  let sents := words_to_sentences (tokenizer st) (commited st) in
  chunk_completed_sentence st =
  match nth_error sents (List.length sents - 2) with
  | Some s => if List.length sents <? 2 then (st, Ok tt)
              else chunk_at (snd (fst s)) st
  | None => (st, Ok tt)
  end.
Proof.
  cbv zeta. unfold chunk_completed_sentence. unfold bind at 1, get.
  destruct (commited st) as [|w0 cm] eqn:Ec.
  - rewrite words_to_sentences_nil. reflexivity.
  - rewrite <- Ec. set (sents := words_to_sentences _ _).
    destruct (Nat.ltb_spec (List.length sents) 2) as [H|H].
    + destruct (nth_error sents _); reflexivity.
    + rewrite keep_last_two_skipn.
      change (-2)%Z with (- Z.of_nat 2)%Z.
      rewrite py_index_from_end by (rewrite length_skipn; lia).
      rewrite nth_error_skipn, length_skipn.
      replace (List.length sents - 2 + (List.length sents - (List.length sents - 2) - 2))
        with (List.length sents - 2) by lia.
      destruct (nth_error sents (List.length sents - 2)) as [s|] eqn:En.
      * reflexivity.
      * apply nth_error_None in En. lia.
Qed.


(** ** OnlineASRProcessor.chunk_at and the audio buffer *)

Lemma py_int_nonneg (x : Q) :
  (0 <= x)%Q ->
  (0 <= py_int x)%Z /\ (inject_Z (py_int x) <= x)%Q /\ (x < inject_Z (py_int x) + 1)%Q.
Proof.
  destruct x as [n d]. unfold py_int, Qle, Qlt. cbn.
  rewrite !Z.mul_1_r. intros Hn.
  rewrite Z.quot_div_nonneg by lia.
  pose proof (Z.mul_div_le n (Zpos d) ltac:(lia)).
  pose proof (Z.mul_succ_div_gt n (Zpos d) ltac:(lia)).
  pose proof (Z.div_pos n (Zpos d) Hn ltac:(lia)).
  repeat split; lia.
Qed.

(** X10. [chunk_at time] only removes samples from the front of the audio
    buffer.  With [cut = int(time - offset)]: when [cut >= 0] the first
    [cut * 16000] samples are removed, a whole number of seconds, so that
    for [time] at or after the offset less than one second of audio before
    [time] is left; when [cut < 0] only the last [-cut * 16000] samples are
    kept (all of them when the buffer is shorter).  The committed log is untouched and the hypothesis buffer loses
    the committed words that end at or before [time]. *)
Theorem chunk_at_trims_audio (st : OnlineASRProcessor) (time : Q) :
  let st' := fst (chunk_at time st) in
  let cut := py_int (time - buffer_time_offset st) in
  suffix_of (audio_buffer st') (audio_buffer st)
  /\ ((0 <= cut)%Z ->
      audio_buffer st'
      = skipn (Z.to_nat (cut * SAMPLING_RATE)) (audio_buffer st))
  /\ ((cut < 0)%Z ->
      audio_buffer st'
      = lastn (Z.to_nat (- cut * SAMPLING_RATE)) (audio_buffer st))
  /\ ((buffer_time_offset st <= time)%Q ->
      (0 <= cut)%Z
      /\ (inject_Z cut <= time - buffer_time_offset st)%Q
      /\ (time - buffer_time_offset st < inject_Z cut + 1)%Q)
  /\ commited st' = commited st
  /\ transcript_buffer st' = pop_commited time (transcript_buffer st).
Proof.
  cbv zeta. rewrite chunk_at_unfold. cbn [fst audio_buffer commited
    transcript_buffer]. set (cut := py_int _).
  assert (Hpos : (0 <= cut)%Z ->
            py_slice_from (cut * SAMPLING_RATE)%Z (audio_buffer st)
            = skipn (Z.to_nat (cut * SAMPLING_RATE)) (audio_buffer st)).
  { intros H. unfold py_slice_from, SAMPLING_RATE.
    destruct (Z.leb_spec 0 (cut * 16000)); [reflexivity | lia]. }
  assert (Hneg : (cut < 0)%Z ->
            py_slice_from (cut * SAMPLING_RATE)%Z (audio_buffer st)
            = lastn (Z.to_nat (- cut * SAMPLING_RATE)) (audio_buffer st)).
  { intros H. unfold py_slice_from, SAMPLING_RATE, lastn.
    destruct (Z.leb_spec 0 (cut * 16000)); [lia|].
    f_equal. lia. }
  split; [|split; [exact Hpos | split; [exact Hneg | split; [|split; reflexivity]]]].
  - destruct (Z.le_gt_cases 0 cut) as [H|H].
    + rewrite (Hpos H). eexists. symmetry. apply firstn_skipn.
    + rewrite (Hneg ltac:(lia)). unfold lastn. eexists. symmetry.
      apply firstn_skipn.
  - intros H. apply py_int_nonneg. lra.
Qed.

(** ** OnlineASRProcessor.chunk_completed_segment in every state *)

(** X11. [chunk_completed_segment] raises nothing.  It leaves the processor
    as it was, or it is [chunk_at e] for a candidate [e] (a segment end but
    the last one, shifted by the offset) that is at or before the end of the
    last committed word.  With an empty committed log it does nothing. *)
Theorem chunk_completed_segment_within_commited
    (st : OnlineASRProcessor) (res : list Segment) :
  let t := w_end (last (commited st) (0%Q, 0%Q, "")) in
  let cands := segment_candidates (buffer_time_offset st) (segments_end_ts res) in
  exists st',
    chunk_completed_segment res st = (st', Ok tt)
    /\ (st' = st
        \/ exists e, In e cands /\ (e <= t)%Q /\ st' = fst (chunk_at e st))
    /\ (commited st = [] -> st' = st).
Proof.
  cbv zeta. destruct (commited st) as [|w0 cm] eqn:Ec.
  - exists st. unfold chunk_completed_segment. unfold bind at 1, get.
    rewrite Ec. repeat split; auto.
  - destruct (Nat.lt_ge_cases (List.length (segments_end_ts res)) 2) as [H|H].
    + exists st. split; [|split; [now left | discriminate]].
      unfold chunk_completed_segment. unfold bind at 1, get.
      rewrite Ec, <- Ec.
      rewrite (py_index_last _ (0%Q, 0%Q, "")) by congruence.
      unfold bind at 1. cbn [index_or_raise ret].
      destruct (Nat.ltb_spec 1 (List.length (segments_end_ts res)));
        [lia | reflexivity].
    + rewrite (chunk_completed_segment_unfold st res) by congruence.
      rewrite Ec. unfold segment_cut.
      destruct (find _ _) as [e|] eqn:Ef.
      * exists (fst (chunk_at e st)). split; [reflexivity|].
        split; [|discriminate]. right. exists e.
        apply find_some in Ef as [Hin He]. apply Qleb_le in He.
        repeat split; assumption.
      * exists st. split; [reflexivity|]. split; [now left | discriminate].
Qed.

(** ** OnlineASRProcessor.prompt in every state *)

Lemma prompt_taken_prefix (rp : list string) (l : nat) :
  exists r, rp = prompt_taken rp l ++ r.
Proof.
  revert l. induction rp as [|x rp IH]; intros l.
  - exists []. reflexivity.
  - cbn [prompt_taken]. destruct (l <? 200).
    + destruct (IH (l + (String.length x + 1))) as (r & E).
      exists r. cbn [app]. now f_equal.
    + exists (x :: rp). reflexivity.
Qed.

(** X12. [prompt] raises nothing and leaves the processor as it was.  It
    splits [commited] at an index [k] below the length of a non-empty
    [commited]: [k] is 0 or the word before position [k] ends at or before
    [last_chunked_at], and every word from position [k] up to the one before
    the last ends after [last_chunked_at].  The context is the text of the
    words from [k] on, and the prompt is the text of whole words: the last
    ones of the first [k]. *)
Theorem prompt_splits_commited (st : OnlineASRProcessor) :
  let cm := commited st in
  exists k pr,
    prompt st = (st, Ok (py_join "" pr, py_join "" (texts (skipn k cm))))
    /\ k <= List.length cm - 1
    /\ suffix_of pr (texts (firstn k cm))
    /\ (k = 0 \/ exists w, nth_error cm (k - 1) = Some w
                           /\ (w_end w <= last_chunked_at st)%Q)
    /\ (forall j w, k <= j < List.length cm - 1 -> nth_error cm j = Some w ->
                    (last_chunked_at st < w_end w)%Q).
Proof.
  cbv zeta. destruct (prompt_total st) as (k & Hk & Ek & E).
  exists k. eexists. split; [exact E|]. split; [exact Hk|].
  assert (H0 : Nat.max 0 (List.length (commited st) - 1)
               <= List.length (commited st)) by lia.
  destruct (prompt_k_largest (commited st) (last_chunked_at st) _ k H0 Ek)
    as (_ & Hw & Hj).
  split; [|split; [exact Hw|]].
  - rewrite prompt_loop_taken by lia. cbn [app].
    destruct (prompt_taken_prefix (rev (texts (firstn k (commited st)))) 0)
      as (r & Er).
    exists (rev r). rewrite <- rev_app_distr, <- Er. now rewrite rev_involutive.
  - intros j w Hjk. apply Hj. lia.
Qed.

(** X13. When no committed text is longer than [L] characters, the prompt
    has at most [199 + L] characters: the loop stops adding words once the
    count [l], which is never smaller than the number of characters taken,
    reaches 200, so only the last word added can take the prompt past 199
    characters. *)
Theorem prompt_at_most_199_plus_longest (st : OnlineASRProcessor) (L : nat) :
  (forall w, In w (commited st) -> String.length (w_text w) <= L) ->
  exists p c, prompt st = (st, Ok (p, c)) /\ String.length p <= 199 + L.
Proof.
  intros HL. destruct (prompt_total st) as (k & _ & _ & E).
  eexists. eexists. split; [exact E|].
  rewrite length_join_empty, total_length_rev, prompt_loop_taken by lia.
  cbn [app].
  pose proof (prompt_taken_bound (rev (texts (firstn k (commited st)))) 0 L) as B.
  rewrite Nat.add_0_r in B. apply B; [|lia].
  intros x Hx. apply in_rev in Hx. unfold texts in Hx. apply in_map_iff in Hx.
  destruct Hx as (w & <- & Hw). apply HL. now apply In_firstn in Hw.
Qed.

Lemma prompt_at_most_199_plus_longest_witness :
  exists p c,
    prompt (scrolled_processor silent_asr one_sentence_tokenizer hello_world 2)
    = (scrolled_processor silent_asr one_sentence_tokenizer hello_world 2,
       Ok (p, c))
    /\ String.length p <= 199 + 6.
Proof.
  apply (prompt_at_most_199_plus_longest
           (scrolled_processor silent_asr one_sentence_tokenizer hello_world 2) 6).
  intros w [<-|[<-|[]]]; cbn; lia.
Defined.

(** ** OnlineASRProcessor.process_iter when the transcriber returns *)

Lemma scrolled_trans (st st' st'' : OnlineASRProcessor) :
  scrolled st st' -> scrolled st' st'' -> scrolled st st''.
Proof.
  intros H1 H2. induction H2 as [|time st2 _ IH]; [exact H1|].
  now apply scrolled_more.
Qed.

Lemma suffix_of_refl {A : Type} (l : list A) : suffix_of l l.
Proof. exists []. reflexivity. Qed.

Lemma suffix_of_trans {A : Type} (a b c : list A) :
  suffix_of a b -> suffix_of b c -> suffix_of a c.
Proof. intros [p ->] [q ->]. exists (q ++ p). now rewrite app_assoc. Qed.



Lemma pop_commited_loop_suffix (time : Q) (cib : list tsword) :
  suffix_of (pop_commited_loop time cib) cib.
Proof.
  destruct (pop_commited_loop_split time cib) as (dropped & E & _).
  now exists dropped.
Qed.


Lemma chunk_completed_sentence_scrolled (st : OnlineASRProcessor) :
  exists st', chunk_completed_sentence st = (st', Ok tt) /\ scrolled st st'.
Proof.
  rewrite chunk_completed_sentence_unfold. cbv zeta.
  destruct (nth_error _ _) as [s|].
  - destruct (_ <? _).
    + exists st. split; [reflexivity | constructor].
    + exists (fst (chunk_at (snd (fst s)) st)).
      split; [reflexivity | apply scrolled_more; constructor].
  - exists st. split; [reflexivity | constructor].
Qed.

Lemma chunk_completed_segment_scrolled (st : OnlineASRProcessor) (res : list Segment) :
  exists st', chunk_completed_segment res st = (st', Ok tt) /\ scrolled st st'.
Proof.
  destruct (commited st) as [|w0 cm] eqn:Ec.
  - exists st. unfold chunk_completed_segment. unfold bind at 1, get.
    rewrite Ec. split; [reflexivity | constructor].
  - destruct (Nat.lt_ge_cases (List.length (segments_end_ts res)) 2) as [H|H].
    + exists st. split; [|constructor].
      unfold chunk_completed_segment. unfold bind at 1, get.
      rewrite Ec, <- Ec.
      rewrite (py_index_last _ (0%Q, 0%Q, "")) by congruence.
      unfold bind at 1. cbn [index_or_raise ret].
      destruct (Nat.ltb_spec 1 (List.length (segments_end_ts res)));
        [lia | reflexivity].
    + rewrite (chunk_completed_segment_unfold st res) by congruence.
      destruct (segment_cut _ _ _) as [e|].
      * exists (fst (chunk_at e st)).
        split; [reflexivity | apply scrolled_more; constructor].
      * exists st. split; [reflexivity | constructor].
Qed.

Lemma scroll_step_scrolled (res : list Segment) (o : list tsword)
    (st : OnlineASRProcessor) :
  exists st', scroll_step res o st = (st', Ok tt) /\ scrolled st st'.
Proof.
  unfold scroll_step.
  assert (H1 : exists st1,
             (match o with [] => ret tt | _ :: _ => chunk_completed_sentence end) st
             = (st1, Ok tt) /\ scrolled st st1).
  { destruct o; [|apply chunk_completed_sentence_scrolled].
    exists st. split; [reflexivity | constructor]. }
  destruct H1 as (st1 & E1 & S1).
  unfold bind at 1. rewrite E1. unfold bind at 1, get.
  destruct (Qgtb (audio_seconds st1) 30).
  - destruct (chunk_completed_segment_scrolled st1 res) as (st2 & E2 & S2).
    exists st2. split; [exact E2 | now apply (scrolled_trans st st1 st2)].
  - exists st1. split; [reflexivity | exact S1].
Qed.

Lemma bind_then_ret {S A : Type} (c : M S unit) (k : S -> M S unit) (x : A)
    (s1 s2 s3 : S) :
  c s1 = (s2, Ok tt) -> k s2 s2 = (s3, Ok tt) ->
  (c ;; s <- get ;; k s ;; ret x) s1
  = (fst ((c ;; s <- get ;; k s) s1), Ok x).
Proof.
  intros E1 E2. unfold bind, get, ret. rewrite E1, E2. reflexivity.
Qed.

Lemma process_iter_unfold (st : OnlineASRProcessor) :
  process_iter st =
  match transcribe (asr st) (audio_buffer st) (prompt_text st) with
  | Raise e => (st, Raise e)
  | Ok res =>
      (fst (scroll_step res (snd (commit_step res st)) (fst (commit_step res st))),
       Ok (to_flush (snd (commit_step res st)) None 0))
  end.
Proof.
  unfold prompt_text. destruct (prompt_total st) as (k & _ & _ & Ep).
  unfold process_iter. unfold bind at 1. rewrite Ep. cbn [snd fst].
  unfold bind at 1, get. unfold bind at 1, call.
  destruct (transcribe _ _ _) as [res|e]; [|reflexivity].
  unfold bind at 1, on_transcript_buffer.
  destruct (insert_result (transcript_buffer st) (ts_words res)
              (buffer_time_offset st)) as (d & _ & Ei).
  unfold commit_step. rewrite Ei. cbn [fst snd].
  unfold bind at 1. cbn [transcript_buffer set_transcript_buffer].
  destruct (flush _) as [tb2 o] eqn:Ef. cbn [fst snd].
  unfold bind at 1, modify. cbn [commited set_transcript_buffer].
  change (set_transcript_buffer tb2 _)
    with (set_transcript_buffer tb2 st).
  set (st1 := set_commited (commited st ++ o) (set_transcript_buffer tb2 st)).
  assert (H1 : exists st2,
             (match o with [] => ret tt | _ :: _ => chunk_completed_sentence end) st1
             = (st2, Ok tt)).
  { destruct o; [now exists st1|].
    destruct (chunk_completed_sentence_scrolled st1) as (st2 & E & _).
    now exists st2. }
  destruct H1 as (st2 & E1).
  assert (H2 : exists st3,
             (if Qgtb (audio_seconds st2) 30
              then chunk_completed_segment res else ret tt) st2 = (st3, Ok tt)).
  { destruct (Qgtb _ _); [|now exists st2].
    destruct (chunk_completed_segment_scrolled st2 res) as (st3 & E & _).
    now exists st3. }
  destruct H2 as (st3 & E2).
  exact (bind_then_ret _
           (fun s => if Qgtb (audio_seconds s) 30
                     then chunk_completed_segment res else ret tt)
           (to_flush o None 0) st1 st2 st3 E1 E2).
Qed.

Lemma commit_step_frame (st : OnlineASRProcessor) (res : list Segment) :
  let st1 := fst (commit_step res st) in
  let o := snd (commit_step res st) in
  let tb1 := fst (insert (ts_words res) (buffer_time_offset st)
                         (transcript_buffer st)) in
  o = snd (flush tb1)
  /\ transcript_buffer st1 = fst (flush tb1)
  /\ commited st1 = commited st ++ o
  /\ commited_in_buffer (transcript_buffer st1)
     = commited_in_buffer (transcript_buffer st) ++ o
  /\ new (transcript_buffer st1) = []
  /\ audio_buffer st1 = audio_buffer st
  /\ buffer_time_offset st1 = buffer_time_offset st
  /\ last_chunked_at st1 = last_chunked_at st
  /\ asr st1 = asr st
  /\ tokenizer st1 = tokenizer st.
Proof.
  cbv zeta. unfold commit_step. cbn [fst snd].
  destruct (insert_result (transcript_buffer st) (ts_words res)
              (buffer_time_offset st)) as (d & _ & ->).
  cbn [fst]. rewrite flush_unfold. cbn [fst snd set_new new buffer
    commited_in_buffer commited transcript_buffer set_commited
    set_transcript_buffer audio_buffer buffer_time_offset last_chunked_at
    asr tokenizer].
  repeat split.
Qed.



(** ** What every state of a session satisfies *)

Lemma session_invariant_init (a : ASRBase) (tk : Tokenizer) :
  session_invariant (init a tk).
Proof.
  unfold session_invariant. split; [reflexivity|].
  split; [apply suffix_of_refl|]. split; [reflexivity|].
  intros w ws E. discriminate E.
Qed.

Lemma session_invariant_chunk_at (st : OnlineASRProcessor) (time : Q) :
  session_invariant st -> session_invariant (fst (chunk_at time st)).
Proof.
  intros (_ & H2 & H3 & H4). rewrite chunk_at_unfold.
  unfold session_invariant. cbn [fst buffer_time_offset last_chunked_at
    transcript_buffer commited].
  split; [reflexivity|]. split; [|split].
  - eapply suffix_of_trans; [apply pop_commited_loop_suffix | exact H2].
  - exact H3.
  - now apply last_commit_recorded_pop.
Qed.

Lemma session_invariant_scrolled (st st' : OnlineASRProcessor) :
  session_invariant st -> scrolled st st' -> session_invariant st'.
Proof.
  intros H S. induction S as [|time st2 _ IH]; [exact H|].
  now apply session_invariant_chunk_at.
Qed.

Lemma session_invariant_commit_step (st : OnlineASRProcessor) (res : list Segment) :
  session_invariant st -> session_invariant (fst (commit_step res st)).
Proof.
  intros (H1 & (pre & H2) & H3 & H4).
  destruct (commit_step_frame st res)
    as (Eo & Etb & Ec & Ecib & En & _ & Eoff & Elca & _ & _).
  cbv zeta in *. unfold session_invariant.
  split; [congruence|]. split; [|split; [exact En|]].
  - exists pre. rewrite Ec, Ecib, H2. now rewrite app_assoc.
  - rewrite Etb. apply last_commit_recorded_flush.
    now apply last_commit_recorded_insert.
Qed.

(** X15. The invariant of a session holds after [__init__] and is kept by
    [insert_audio_chunk], [process_iter] (whether the transcriber returns or
    raises), [chunk_at] and [finish]: the offset of the audio buffer is the
    time of the last scroll, [commited_in_buffer] is the end of [commited],
    [new] is empty, and [last_commited_time] and [last_commited_word]
    describe the last word of a non-empty [commited_in_buffer]. *)
Theorem session_invariant_kept :
  (forall a tk, session_invariant (init a tk))
  /\ (forall st, session_invariant st ->
        session_invariant (fst (process_iter st))
        /\ (forall audio, session_invariant (fst (insert_audio_chunk audio st)))
        /\ (forall time, session_invariant (fst (chunk_at time st)))
        /\ session_invariant (fst (finish st))).
Proof.
  split; [exact session_invariant_init|].
  intros st H. split; [|split; [|split]].
  - rewrite process_iter_unfold.
    destruct (transcribe _ _ _) as [res|e]; [|exact H]. cbn [fst].
    destruct (scroll_step_scrolled res (snd (commit_step res st))
                (fst (commit_step res st))) as (st' & Es & Hs).
    rewrite Es. cbn [fst].
    apply (session_invariant_scrolled (fst (commit_step res st))); [|exact Hs].
    now apply session_invariant_commit_step.
  - intros audio. exact H.
  - intros time. now apply session_invariant_chunk_at.
  - exact H.
Qed.

Lemma session_invariant_kept_witness :
  session_invariant (init hello_asr period_tokenizer)
  /\ session_invariant (fst (process_iter (init hello_asr period_tokenizer))).
Proof.
  split; [apply (proj1 session_invariant_kept)|].
  exact (proj1 (proj2 session_invariant_kept (init hello_asr period_tokenizer)
                  (proj1 session_invariant_kept hello_asr period_tokenizer))).
Defined.

(** ** The text of the committed log *)





(** ** load_audio_chunk *)

Lemma firstn_add_skipn {A : Type} (x y : nat) (l : list A) :
  firstn (x + y) l = firstn x l ++ firstn y (skipn x l).
Proof.
  revert l. induction x as [|x IH]; intros l; [reflexivity|].
  destruct l as [|a l]; [now rewrite !firstn_nil|].
  cbn [Nat.add firstn skipn app]. now rewrite IH.
Qed.

Lemma py_slice_nonneg {A : Type} (b e : Z) (l : list A) :
  (0 <= b <= e)%Z ->
  py_slice b e l
  = firstn (Z.to_nat e - Z.to_nat b) (skipn (Z.to_nat b) l).
Proof.
  intros H. unfold py_slice, py_clamp.
  destruct (Z.ltb_spec b 0); [lia|]. destruct (Z.ltb_spec e 0); [lia|].
  set (n := List.length l).
  destruct (Nat.le_gt_cases n (Z.to_nat b)) as [Hb|Hb].
  - rewrite !skipn_all2 by (fold n; lia). now rewrite !firstn_nil.
  - replace (Z.to_nat (Z.min b (Z.of_nat n))) with (Z.to_nat b) by lia.
    destruct (Nat.le_gt_cases n (Z.to_nat e)) as [He|He].
    + rewrite !firstn_all2; [reflexivity | |]; rewrite length_skipn; fold n; lia.
    + f_equal. lia.
Qed.

Lemma py_slice_tiles {A : Type} (b m e : Z) (l : list A) :
  (0 <= b <= m)%Z -> (m <= e)%Z ->
  py_slice b m l ++ py_slice m e l = py_slice b e l.
Proof.
  intros H1 H2. rewrite !py_slice_nonneg by lia.
  replace (Z.to_nat e - Z.to_nat b)
    with ((Z.to_nat m - Z.to_nat b) + (Z.to_nat e - Z.to_nat m)) by lia.
  rewrite firstn_add_skipn, skipn_skipn. do 3 f_equal. lia.
Qed.

Lemma py_int_mono (x y : Q) :
  (0 <= x)%Q -> (x <= y)%Q -> (0 <= py_int x <= py_int y)%Z.
Proof.
  intros Hx Hxy.
  destruct (py_int_nonneg x Hx) as (H0 & H1 & _).
  destruct (py_int_nonneg y ltac:(lra)) as (_ & _ & H2).
  split; [exact H0|].
  assert (H : (inject_Z (py_int x) < inject_Z (py_int y) + 1)%Q) by lra.
  unfold Qlt, inject_Z, Qplus in H. cbn in H. lia.
Qed.

(** X17. Chunks cut by [load_audio_chunk] at successive times tile the
    audio: for [0 <= beg <= mid <= end], the chunk from [beg] to [mid]
    followed by the chunk from [mid] to [end] is the chunk from [beg] to
    [end], and the chunk from 0 to [end] is the first [int(end * 16000)]
    samples of the audio. *)
Theorem load_audio_chunk_tiles (audio : list sample) (beg mid end_ : Q) :
  (0 <= beg)%Q -> (beg <= mid)%Q -> (mid <= end_)%Q ->
  load_audio_chunk audio beg mid ++ load_audio_chunk audio mid end_
  = load_audio_chunk audio beg end_
  /\ load_audio_chunk audio 0 end_
     = firstn (Z.to_nat (py_int (end_ * 16000))) audio.
Proof.
  intros H0 H1 H2. unfold load_audio_chunk.
  destruct (py_int_mono (beg * 16000) (mid * 16000)) as (Hb & Hbm); try lra.
  destruct (py_int_mono (mid * 16000) (end_ * 16000)) as (_ & Hme); try lra.
  split.
  - apply py_slice_tiles; lia.
  - rewrite py_slice_nonneg.
    + change (py_int (0 * 16000)) with 0%Z. cbn [Z.to_nat skipn].
      now rewrite Nat.sub_0_r.
    + change (py_int (0 * 16000)) with 0%Z. lia.
Qed.

Lemma load_audio_chunk_tiles_witness :
  load_audio_chunk [1; 2; 3]%Q 0 0.0001 ++ load_audio_chunk [1; 2; 3]%Q 0.0001 1
  = load_audio_chunk [1; 2; 3]%Q 0 1.
Proof.
  refine (proj1 (load_audio_chunk_tiles [1; 2; 3]%Q 0 0.0001 1 _ _ _));
    vm_compute; discriminate.
Defined.

(** ** LocalAgreement over one iteration *)

(** X18. In one iteration ([insert], then [flush]) a word is committed only
    if it is a word of the current transcription, shifted by the offset,
    that starts after [last_commited_time - 0.1], and only if its text stands
    at the same position in the proposal kept from the previous iteration:
    the texts committed are a prefix of the texts of [buffer].  The words
    committed are appended to [commited_in_buffer], which loses nothing. *)
Theorem local_agreement (hb : HypothesisBuffer) (ws : list tsword) (offset : Q) :
  let o := snd (flush (fst (insert ws offset hb))) in
  prefix_of (texts o) (texts (buffer hb))
  /\ List.length o <= List.length (buffer hb)
  /\ (forall w, In w o ->
        In w (shift_words offset ws)
        /\ (last_commited_time hb - 0.1 < w_beg w)%Q)
  /\ commited_in_buffer (insert_then_flush ws offset hb)
     = commited_in_buffer hb ++ o.
Proof.
  cbv zeta. unfold insert_then_flush.
  destruct (insert_result hb ws offset) as (d & _ & ->). cbn [fst].
  rewrite flush_unfold. cbn [fst snd set_new new buffer commited_in_buffer].
  set (nw := skipn d _). set (n := common_prefix_len _ _).
  assert (Ht : texts (firstn n nw) = firstn n (texts (buffer hb))).
  { unfold texts at 1. rewrite <- firstn_map. apply common_prefix_len_firstn. }
  split; [rewrite Ht; apply prefix_of_firstn|].
  split.
  - apply (f_equal (@List.length string)) in Ht. unfold texts in Ht.
    rewrite length_firstn, !length_map in Ht. lia.
  - split; [|reflexivity].
    intros w Hw. apply In_firstn in Hw. subst nw.
    apply In_skipn, keep_after_In in Hw. exact Hw.
Qed.
